(** * Verification model of the retrieval engine of agentkit
    (src/rag/ingest.py and src/rag/store.py).

    Strings are modelled as Stdlib [string] (ASCII characters; Python's
    [len] is [String.length] on them).  Python [int] values are [Z]. *)

From Stdlib Require Import String Ascii List ZArith QArith Qround Bool Lia Lqa DecimalString Sorted.
From Stdlib Require DecimalZ.
Import ListNotations.
Open Scope Z_scope.

(** ** Python string primitives used by the chunker *)
Module Py.

(** [str.isspace] on an ASCII character: \t \n \v \f \r, the separators
    \x1c..\x1f and the space.  Both [\s] of [re] (in str mode) and
    [str.split()] / [str.strip()] use this class. *)
Definition is_space (c : ascii) : bool :=
  let n := nat_of_ascii c in
  (Nat.leb 9 n && Nat.leb n 13) || (Nat.leb 28 n && Nat.leb n 32).

Definition len (s : string) : Z := Z.of_nat (String.length s).

Definition is_empty (s : string) : bool :=
  match s with EmptyString => true | _ => false end.

(** [str.lstrip()] *)
Fixpoint lstrip (s : string) : string :=
  match s with
  | EmptyString => EmptyString
  | String c r => if is_space c then lstrip r else s
  end.

(** [str.rstrip()] *)
Fixpoint rstrip (s : string) : string :=
  match s with
  | EmptyString => EmptyString
  | String c r =>
      let r' := rstrip r in
      if is_empty r' && is_space c then EmptyString else String c r'
  end.

(** [str.strip()] *)
Definition strip (s : string) : string := rstrip (lstrip s).

(** [str.split()] with no separator: maximal runs of non-whitespace. *)
Fixpoint split_ws_aux (cur : string) (s : string) : list string :=
  match s with
  | EmptyString => if is_empty cur then [] else [cur]
  | String c r =>
      if is_space c then
        (if is_empty cur then split_ws_aux EmptyString r
         else cur :: split_ws_aux EmptyString r)
      else split_ws_aux (cur ++ String c EmptyString)%string r
  end.

Definition split_ws (s : string) : list string := split_ws_aux EmptyString s.

(** [sep.join(xs)] *)
Definition join (sep : string) (xs : list string) : string := String.concat sep xs.

(** [xs[start:]] on a Python list, with negative [start] counted from the
    end and both clamped to the list. *)
Definition slice_from {A} (start : Z) (xs : list A) : list A :=
  let n := Z.of_nat (length xs) in
  let st := if start <? 0 then Z.max 0 (start + n) else Z.min start n in
  skipn (Z.to_nat st) xs.

Definition is_punct (c : ascii) : bool :=
  match c with
  | "."%char | "!"%char | "?"%char => true
  | _ => false
  end.

(** [re.split(r"(?<=[.!?])\s+", s)]: the string is cut at every maximal run
    of whitespace whose preceding character is one of [.!?]; the run is
    dropped.  [pp] records that the previous character is such a
    punctuation mark, [skip] that we are inside a dropped run. *)
Fixpoint split_sentences_aux (pp skip : bool) (acc : string) (s : string)
  : list string :=
  match s with
  | EmptyString => [acc]
  | String c r =>
      if skip && is_space c then split_sentences_aux false true acc r
      else if pp && is_space c then
        acc :: split_sentences_aux false true EmptyString r
      else split_sentences_aux (is_punct c) false (acc ++ String c EmptyString)%string r
  end.

Definition split_sentences (s : string) : list string :=
  split_sentences_aux false false EmptyString s.

End Py.

(** ** The chunker: [chunk_text] of src/rag/ingest.py *)
Module Ingest.
Import Py.

(** One iteration of the [for s in sentences] loop body, folded over the
    sentences; the state is [(chunks, cur, cur_len)]. *)
Fixpoint chunk_loop (chunk_size overlap : Z) (sentences : list string)
    (chunks cur : list string) (cur_len : Z) : list string * list string :=
  match sentences with
  | [] => (chunks, cur)
  | s :: rest =>
      if (cur_len + len s >? chunk_size) && negb (match cur with [] => true | _ => false end)
      then
        let closed := join " " cur in
        let overlap_tokens :=
          if overlap =? 0 then EmptyString
          else join " " (slice_from (- overlap) (split_ws closed)) in
        let cur' := if is_empty overlap_tokens then [s] else [overlap_tokens; s] in
        chunk_loop chunk_size overlap rest (chunks ++ [closed]) cur' (len (join " " cur'))
      else
        chunk_loop chunk_size overlap rest chunks (cur ++ [s]) (cur_len + len s)
  end.

(** The chunks accumulated before the final filter. *)
Definition accumulated (text : string) (chunk_size overlap : Z) : list string :=
  let sentences := split_sentences (strip text) in
  let '(chunks, cur) := chunk_loop chunk_size overlap sentences [] [] 0 in
  match cur with
  | [] => chunks
  | _ => chunks ++ [join " " cur]
  end.

Definition chunk_text (text : string) (chunk_size overlap : Z) : list string :=
  map strip (filter (fun c => len (strip c) >? 30) (accumulated text chunk_size overlap)).

(** The filtering step as the specification words it: walk the accumulated
    chunks in order, strip each one and keep it when its stripped length is
    greater than 30. *)
Fixpoint keep_long_chunks (chunks : list string) : list string :=
  match chunks with
  | [] => []
  | c :: rest =>
      if 30 <? len (strip c) then strip c :: keep_long_chunks rest
      else keep_long_chunks rest
  end.

End Ingest.

(** ** The namespaced vector index and the query cache: src/rag/store.py *)
Module Store.
Import Py Ingest.

(** Metadata values: the code stores strings and ints. *)
Inductive mval := MStr (s : string) | MInt (z : Z).
Definition metadata := list (string * mval).

(** Python dicts as association lists in insertion order. *)
Fixpoint dict_get {V} (k : string) (d : list (string * V)) : option V :=
  match d with
  | [] => None
  | (k', v) :: r => if String.eqb k k' then Some v else dict_get k r
  end.

(** [d[k] = v]: an existing key keeps its position, a new one is appended. *)
Fixpoint dict_set {V} (k : string) (v : V) (d : list (string * V)) : list (string * V) :=
  match d with
  | [] => [(k, v)]
  | (k', v') :: r => if String.eqb k k' then (k', v) :: r else (k', v') :: dict_set k v r
  end.

(** [del d[k]] *)
Definition dict_del {V} (k : string) (d : list (string * V)) : list (string * V) :=
  filter (fun kv => negb (String.eqb k (fst kv))) d.

(** [str(n)] for a Python int. *)
Definition py_str_int (z : Z) : string := NilZero.string_of_int (Z.to_int z).

Definition py_str (v : mval) : string :=
  match v with MStr s => s | MInt z => py_str_int z end.

(** Python truthiness of [metadata.get(key)]. *)
Definition truthy (v : option mval) : bool :=
  match v with
  | Some (MStr s) => negb (is_empty s)
  | Some (MInt z) => negb (z =? 0)
  | None => false
  end.

Fixpoint enumerate {A} (i : nat) (xs : list A) : list (nat * A) :=
  match xs with [] => [] | x :: r => (i, x) :: enumerate (S i) r end.

(** A chunk dict [{"id", "text", "metadata"}]. *)
Record chunk := mk_chunk { c_id : string; c_text : string; c_meta : metadata }.

(** [metadata.get("doc_id") or str(uuid.uuid4())]; [fresh] is the uuid
    string this call would draw. *)
Definition doc_id_of (md : metadata) (fresh : string) : string :=
  match dict_get "doc_id" md with
  | Some v => if truthy (Some v) then py_str v else fresh
  | None => fresh
  end.

(** [build_doc_chunks], from the extracted text of the file on. *)
Definition build_doc_chunks (text : string) (md : metadata) (chunk_size overlap : Z)
    (fresh : string) : list chunk :=
  let chunks := chunk_text text chunk_size overlap in
  let doc_id := doc_id_of md fresh in
  map (fun '(i, ch) =>
         mk_chunk (doc_id ++ "-" ++ py_str_int (Z.of_nat i))%string ch
                  (dict_set "chunk" (MInt (Z.of_nat i)) md))
      (enumerate 0 chunks).

(** A vector stored in a collection, keyed by its id. *)
Record entry := mk_entry { e_id : string; e_emb : list Q; e_meta : metadata; e_doc : string }.
Definition collection := list entry.

(** A result dict of [query]. *)
Record qresult := mk_qresult {
  r_id : string; r_text : string; r_meta : metadata;
  r_distance : option Q; r_score : Q }.

(** The module globals and the persisted collections of the client. *)
Record state := mk_state {
  st_client : list (string * collection);  (** collections of the PersistentClient *)
  st_handles : list string;                (** the keys of [_collections] *)
  st_cache : list (string * list qresult); (** [_query_cache], insertion order *)
  st_cache_on : bool;                      (** [_cache_enabled and _config["cache_enabled"]] *)
  st_cache_max : Z;                        (** [_cache_max_size] *)
  st_io_ok : bool;                         (** the storage layer answers (else it raises) *)
  st_model_ok : bool                       (** [SentenceTransformer(...)] loads *)
}.

Definition set_client c st :=
  mk_state c (st_handles st) (st_cache st) (st_cache_on st) (st_cache_max st) (st_io_ok st) (st_model_ok st).
Definition set_handles h st :=
  mk_state (st_client st) h (st_cache st) (st_cache_on st) (st_cache_max st) (st_io_ok st) (st_model_ok st).
Definition set_cache q st :=
  mk_state (st_client st) (st_handles st) q (st_cache_on st) (st_cache_max st) (st_io_ok st) (st_model_ok st).

(** Exceptions raised by the code or by the libraries it calls. *)
Inductive exc :=
  | NotFound | InvalidName | AlreadyExists | DuplicateID | BadNResults
  | StorageFailure | EmbeddingUnavailable | StopIteration.

(** State and exceptions: a raised exception keeps the mutations done
    before it, as in Python. *)
Definition M (A : Type) := state -> (exc + A) * state.
Definition ret {A} (a : A) : M A := fun st => (inr a, st).
Definition bind {A B} (m : M A) (f : A -> M B) : M B :=
  fun st => match m st with
            | (inl e, st') => (inl e, st')
            | (inr a, st') => f a st'
            end.
Definition raise {A} (e : exc) : M A := fun st => (inl e, st).
Definition get : M state := fun st => (inr st, st).
Definition put (st : state) : M unit := fun _ => (inr tt, st).
(** [try: m except Exception as e: h(e)] *)
Definition try_except {A} (m : M A) (h : exc -> M A) : M A :=
  fun st => match m st with
            | (inl e, st') => h e st'
            | ok => ok
            end.

Declare Scope store_scope.
Delimit Scope store_scope with store.
Notation "x <- m ;; k" := (bind m (fun x => k))
  (at level 61, m at next level, right associativity) : store_scope.
Notation "m ;; k" := (bind m (fun _ => k))
  (at level 61, right associativity) : store_scope.
Local Open Scope store_scope.

Fixpoint nodupb (xs : list string) : bool :=
  match xs with
  | [] => true
  | x :: r => negb (existsb (String.eqb x) r) && nodupb r
  end.

(** Chroma's upsert of one vector: overwrite in place, or append. *)
Fixpoint upsert_one (e : entry) (c : collection) : collection :=
  match c with
  | [] => [e]
  | e' :: r => if String.eqb (e_id e) (e_id e') then e :: r else e' :: upsert_one e r
  end.

(** Squared L2 distance, Chroma's default space. *)
Definition sqdist (u v : list Q) : Q :=
  fold_left (fun acc ab => acc + (fst ab - snd ab) * (fst ab - snd ab))%Q (combine u v) 0%Q.

Fixpoint insert_by_dist (h : entry * Q) (hs : list (entry * Q)) : list (entry * Q) :=
  match hs with
  | [] => [h]
  | h' :: r => if Qle_bool (snd h) (snd h') then h :: hs else h' :: insert_by_dist h r
  end.

Definition sort_by_dist (hs : list (entry * Q)) : list (entry * Q) :=
  fold_right insert_by_dist [] hs.

(** Python's [round(x, 3)]: to the nearest multiple of 1/1000, ties to even. *)
Definition round_half_even (x : Q) : Z :=
  let f := Qfloor x in
  match Qcompare (x - inject_Z f)%Q (1 # 2) with
  | Lt => f
  | Gt => f + 1
  | Eq => if Z.even f then f else f + 1
  end.

Definition round3 (x : Q) : Q := round_half_even (x * 1000)%Q # 1000.

(** [round(1.0 / (1.0 + distance) if distance is not None else 0.5, 3)] *)
Definition relevance (distance : option Q) : Q :=
  round3 (match distance with Some d => / (1 + d) | None => 1 # 2 end)%Q.

Definition format_hit (h : entry * Q) : qresult :=
  mk_qresult (e_id (fst h)) (e_doc (fst h)) (e_meta (fst h)) (Some (snd h))
             (relevance (Some (snd h))).

(** [_get_cache_key]: the dict is keyed by the md5 hex digest of
    [f"{namespace}:{query_text}:{k}"]; the model keys it by that string
    itself.  The digest is a function of the string, so two calls with the
    same string share their cache entry in the program as in the model. *)
Definition _get_cache_key (namespace query_text : string) (k : Z) : string :=
  (namespace ++ ":" ++ query_text ++ ":" ++ py_str_int k)%string.

Definition _get_cached_result (cache_key : string) : M (option (list qresult)) :=
  st <- get ;;
  ret (if st_cache_on st then dict_get cache_key (st_cache st) else None).

Definition _cache_result (cache_key : string) (result : list qresult) : M unit :=
  st <- get ;;
  if negb (st_cache_on st) then ret tt
  else
    (if Z.of_nat (length (st_cache st)) >=? st_cache_max st then
       match st_cache st with
       | [] => raise StopIteration   (* next(iter({})) *)
       | _ :: rest => put (set_cache rest st)
       end
     else ret tt) ;;
    st' <- get ;;
    put (set_cache (dict_set cache_key result (st_cache st')) st').

Section Externals.
(** The sentence-transformer model, and Chroma's collection-name check. *)
Variable encode : string -> list Q.
Variable valid_name : string -> bool.

Definition storage_ok : M unit :=
  fun st => if st_io_ok st then (inr tt, st) else (inl StorageFailure, st).

Definition client_get_collection (name : string) : M unit :=
  storage_ok ;; st <- get ;;
  match dict_get name (st_client st) with Some _ => ret tt | None => raise NotFound end.

Definition client_create_collection (name : string) : M unit :=
  storage_ok ;;
  (if valid_name name then ret tt else raise InvalidName) ;;
  st <- get ;;
  match dict_get name (st_client st) with
  | Some _ => raise AlreadyExists
  | None => put (set_client (st_client st ++ [(name, [])]) st)
  end.

Definition client_delete_collection (name : string) : M unit :=
  storage_ok ;; st <- get ;;
  match dict_get name (st_client st) with
  | Some _ => put (set_client (dict_del name (st_client st)) st)
  | None => raise NotFound
  end.

(** [get_collection]: the handle is the collection's name; operations
    through it reach the persisted collection of that name. *)
Definition get_collection (namespace : string) : M unit :=
  st <- get ;;
  if existsb (String.eqb namespace) (st_handles st) then ret tt
  else
    try_except (client_get_collection namespace)
               (fun _ => client_create_collection namespace) ;;
    st' <- get ;;
    put (set_handles (st_handles st' ++ [namespace]) st').

Definition get_model : M unit :=
  fun st => if st_model_ok st then (inr tt, st) else (inl EmbeddingUnavailable, st).

Definition col_fetch (namespace : string) : M collection :=
  storage_ok ;; st <- get ;;
  match dict_get namespace (st_client st) with Some c => ret c | None => raise NotFound end.

Definition col_store (namespace : string) (c : collection) : M unit :=
  st <- get ;; put (set_client (dict_set namespace c (st_client st)) st).

Definition col_upsert (namespace : string) (es : list entry) : M unit :=
  c <- col_fetch namespace ;;
  if nodupb (map e_id es) then col_store namespace (fold_left (fun c e => upsert_one e c) es c)
  else raise DuplicateID.

Definition col_query (namespace : string) (q : list Q) (k : Z) : M (list (entry * Q)) :=
  c <- col_fetch namespace ;;
  if k <=? 0 then raise BadNResults
  else ret (firstn (Z.to_nat k) (sort_by_dist (map (fun e => (e, sqdist (e_emb e) q)) c))).

Definition col_delete (namespace : string) (ids : list string) : M unit :=
  c <- col_fetch namespace ;;
  col_store namespace (filter (fun e => negb (existsb (String.eqb (e_id e)) ids)) c).

Definition upsert_chunks (namespace : string) (chunks : list chunk) : M unit :=
  match chunks with
  | [] => ret tt
  | _ =>
      get_collection namespace ;;
      get_model ;;
      col_upsert namespace
        (map (fun c => mk_entry (c_id c) (encode (c_text c)) (c_meta c) (c_text c)) chunks)
  end.

Definition query (namespace query_text : string) (k : Z) (use_cache : bool)
  : M (list qresult) :=
  cached <- (if use_cache then _get_cached_result (_get_cache_key namespace query_text k)
             else ret None) ;;
  match cached with
  | Some r => ret r
  | None =>
      try_except
        (get_collection namespace ;;
         get_model ;;
         hits <- col_query namespace (encode query_text) k ;;
         let out := map format_hit hits in
         (if use_cache then _cache_result (_get_cache_key namespace query_text k) out
          else ret tt) ;;
         ret out)
        (fun _ => ret [])
  end.

Definition doc_matches (doc_id : string) (e : entry) : bool :=
  match dict_get "doc_id" (e_meta e) with
  | Some (MStr s) => String.eqb s doc_id
  | _ => false
  end.

Definition delete_document (namespace doc_id : string) : M Z :=
  try_except
    (get_collection namespace ;;
     all_docs <- col_fetch namespace ;;
     let chunk_ids_to_delete := map e_id (filter (doc_matches doc_id) all_docs) in
     match chunk_ids_to_delete with
     | [] => ret 0
     | _ => col_delete namespace chunk_ids_to_delete ;;
            ret (Z.of_nat (length chunk_ids_to_delete))
     end)
    (fun e => raise e).

Definition delete_namespace (namespace : string) : M unit :=
  try_except
    (client_delete_collection namespace ;;
     st <- get ;;
     put (set_handles (filter (fun n => negb (String.eqb namespace n)) (st_handles st)) st))
    (fun _ => ret tt).

End Externals.

(** A query that does not hit the cache. *)
Definition cache_miss (use_cache : bool) (namespace query_text : string) (k : Z)
    (st : state) : Prop :=
  use_cache = false \/ st_cache_on st = false
  \/ dict_get (_get_cache_key namespace query_text k) (st_cache st) = None.

(** Chroma keys a collection's vectors by id: no id occurs twice. *)
Definition coll_ids_unique (st : state) : Prop :=
  forall namespace c, dict_get namespace (st_client st) = Some c -> NoDup (map e_id c).

End Store.
(** ** Concrete inputs for the scenarios below *)
Module Demo.
Import Py Ingest Store.
Local Open Scope string_scope.

(** A one-dimensional stand-in for the embedding model. *)
Definition enc (s : string) : list Q := [inject_Z (Z.of_nat (String.length s))].
(** Chroma's collection-name check ([check_index_name] of chromadb):
    3 to 63 characters, matching [^[a-zA-Z0-9][a-zA-Z0-9._-]*[a-zA-Z0-9]$],
    without "..", and not matching
    [^[0-9]{1,3}\.[0-9]{1,3}\.[0-9]{1,3}\.[0-9]{1,3}$].  With [re.match],
    [$] also matches just before a final newline. *)
Definition is_alnum (c : ascii) : bool :=
  let n := nat_of_ascii c in
  (Nat.leb 48 n && Nat.leb n 57) || (Nat.leb 65 n && Nat.leb n 90)
  || (Nat.leb 97 n && Nat.leb n 122).
Definition is_digit (c : ascii) : bool :=
  let n := nat_of_ascii c in Nat.leb 48 n && Nat.leb n 57.
Definition name_inner (c : ascii) : bool :=
  is_alnum c || Ascii.eqb c "." || Ascii.eqb c "_" || Ascii.eqb c "-".
(** [^[a-zA-Z0-9][a-zA-Z0-9._-]*[a-zA-Z0-9]] on the whole list. *)
Definition name_shape (l : list ascii) : bool :=
  match l with
  | a :: (_ :: _) as rest =>
      is_alnum a && forallb name_inner (removelast rest) && is_alnum (last rest a)
  | _ => false
  end.
(** [l] cut at each ".". *)
Fixpoint split_dots (l : list ascii) : list (list ascii) :=
  match l with
  | [] => [[]]
  | c :: r =>
      let parts := split_dots r in
      if Ascii.eqb c "." then [] :: parts
      else match parts with
           | p :: ps => (c :: p) :: ps
           | [] => [[c]]
           end
  end.
(** [[0-9]{1,3}\.[0-9]{1,3}\.[0-9]{1,3}\.[0-9]{1,3}] on the whole list. *)
Definition ipv4_shape (l : list ascii) : bool :=
  let parts := split_dots l in
  Nat.eqb (length parts) 4
  && forallb (fun p => Nat.leb 1 (length p) && Nat.leb (length p) 3 && forallb is_digit p) parts.
(** A pattern ending in [$], matched from the start. *)
Definition dollar (p : list ascii -> bool) (l : list ascii) : bool :=
  p l || (match rev l with
          | c :: r => Ascii.eqb c "010"%char && p (rev r)
          | [] => false
          end).
Fixpoint has_dotdot (l : list ascii) : bool :=
  match l with
  | a :: ((b :: _) as r) => (Ascii.eqb a "." && Ascii.eqb b ".") || has_dotdot r
  | _ => false
  end.
Definition chroma_valid_name (name : string) : bool :=
  let l := list_ascii_of_string name in
  Nat.leb 3 (length l) && Nat.leb (length l) 63
  && dollar name_shape l && negb (has_dotdot l) && negb (dollar ipv4_shape l).
(** Fresh process: no collection, empty cache of capacity 100, storage and
    model available. *)
Definition st0 : state := mk_state [] [] [] true 100 true true.
Definition chunk_d1 : chunk :=
  mk_chunk "d1-0" "Alpha beta gamma." [("doc_id", MStr "d1"); ("chunk", MInt 0)].
Definition r_d1 : qresult :=
  mk_qresult "d1-0" "Alpha beta gamma." [("doc_id", MStr "d1"); ("chunk", MInt 0)]
             (Some 196%Q) (5 # 1000).
(** The text of a one-sentence document longer than 30 characters. *)
Definition doc_text : string := "Retrieval engines split documents into chunks.".
(** Namespace "docs" holding one chunk of each of the documents d1 and d2. *)
Definition e_d1 : entry :=
  mk_entry "d1-0" [17%Q] [("doc_id", MStr "d1"); ("chunk", MInt 0)] "Alpha beta gamma.".
Definition e_d2 : entry :=
  mk_entry "d2-0" [16%Q] [("doc_id", MStr "d2"); ("chunk", MInt 0)] "Delta epsilon pi.".
(** Namespace "docs" holding the two chunks of notes.txt, document d1, and
    one chunk without a filename. *)
Definition e_f1 : entry :=
  mk_entry "d1-0" [17%Q] [("filename", MStr "notes.txt"); ("doc_id", MStr "d1"); ("chunk", MInt 0)]
           "Alpha beta gamma.".
Definition e_f2 : entry :=
  mk_entry "d1-1" [16%Q] [("filename", MStr "notes.txt"); ("doc_id", MStr "d1"); ("chunk", MInt 1)]
           "Delta epsilon pi.".
Definition e_f3 : entry :=
  mk_entry "d2-0" [12%Q] [("doc_id", MStr "d2"); ("chunk", MInt 0)] "Zeta eta.".
Definition st_files : state :=
  mk_state [("docs", [e_f1; e_f2; e_f3])] ["docs"] [] true 100 true true.
(** The metadata [ingest_doc] attaches to an upload of notes.txt as
    document d3. *)
Definition md_d3 : metadata :=
  [("filename", MStr "notes.txt"); ("namespace", MStr "docs");
   ("session_id", MStr "s1"); ("doc_id", MStr "d3")].
Definition st_docs : state :=
  mk_state [("docs", [e_d1; e_d2])] ["docs"] [] true 100 true true.

End Demo.

(** ** Text extraction and upload handling: extract_text_from_file of
    src/rag/ingest.py, and the ingestion endpoint of src/app/main.py with
    the standard-library path functions it relies on (POSIX). *)
Module Files.
Import Py.
Local Open Scope string_scope.

(** [str.lower()] on an ASCII string. *)
Definition lower_char (c : ascii) : ascii :=
  let n := nat_of_ascii c in
  if Nat.leb 65 n && Nat.leb n 90 then ascii_of_nat (n + 32) else c.

Fixpoint lower (s : string) : string :=
  match s with
  | EmptyString => EmptyString
  | String c r => String (lower_char c) (lower r)
  end.

(** [s.rfind(c)]: the last index of [c], or -1. *)
Fixpoint rfind_aux (c : ascii) (s : string) (i best : Z) : Z :=
  match s with
  | EmptyString => best
  | String d r => rfind_aux c r (i + 1) (if Ascii.eqb c d then i else best)
  end.

Definition rfind (c : ascii) (s : string) : Z := rfind_aux c s 0 (-1).

(** [s[i:j]] for [0 <= i <= j]. *)
Definition slice (i j : Z) (s : string) : string :=
  substring (Z.to_nat i) (Z.to_nat (j - i)) s.

(** Some character of [s[i:i+n]] is not a dot. *)
Fixpoint has_non_dot (s : string) (i n : nat) : bool :=
  match n with
  | O => false
  | S m =>
      match String.get i s with
      | Some c => negb (Ascii.eqb c ".") || has_non_dot s (S i) m
      | None => has_non_dot s (S i) m
      end
  end.

(** [os.path.splitext] (genericpath._splitext with sep "/" and extsep "."):
    the extension starts at the last dot, provided it lies in the last
    component and that component has a non-dot character before it. *)
Definition splitext (p : string) : string * string :=
  let sepIndex := rfind "/" p in
  let dotIndex := rfind "." p in
  if (dotIndex >? sepIndex)%Z
     && has_non_dot p (Z.to_nat (sepIndex + 1)) (Z.to_nat (dotIndex - (sepIndex + 1)))
  then (slice 0 dotIndex p, slice dotIndex (len p) p)
  else (p, "").

(** [s.split(c)] *)
Fixpoint split_char_aux (c : ascii) (cur s : string) : list string :=
  match s with
  | EmptyString => [cur]
  | String d r =>
      if Ascii.eqb c d then cur :: split_char_aux c EmptyString r
      else split_char_aux c (cur ++ String d EmptyString) r
  end.

Definition split_char (c : ascii) (s : string) : list string := split_char_aux c EmptyString s.

(** [PurePosixPath(p).name]: the last part once the path is split at "/"
    and its empty and "." parts are dropped, or "" when none is left. *)
Definition path_name (p : string) : string :=
  last (filter (fun part => negb (is_empty part || String.eqb part ".")) (split_char "/" p)) "".

(** [PurePath.suffix] *)
Definition path_suffix (p : string) : string :=
  let name := path_name p in
  let i := rfind "." name in
  if (0 <? i)%Z && (i <? len name - 1)%Z then slice i (len name) name else "".

(** The four readers [extract_text_from_file] dispatches to. *)
Inductive reader := ReadPdf | ReadDocx | ReadTxt | ReadMd.

(** The dispatch of [extract_text_from_file]: [None] is the
    [ValueError("Unsupported file extension: ...")] branch. *)
Definition extract_reader (file_path : string) : option reader :=
  let extension := lower (path_suffix file_path) in
  if extension =? ".pdf" then Some ReadPdf
  else if extension =? ".docx" then Some ReadDocx
  else if extension =? ".txt" then Some ReadTxt
  else if (extension =? ".md") || (extension =? ".markdown") then Some ReadMd
  else None.

(** [extract_text_from_file], given the readers ([inl] is the message of
    the exception raised). *)
Definition extract_text_from_file (read : reader -> string -> string + string)
    (file_path : string) : string + string :=
  match extract_reader file_path with
  | Some r => read r file_path
  | None => inl ("Unsupported file extension: " ++ lower (path_suffix file_path))
  end.

(** [sub in s] *)
Fixpoint contains (sub s : string) : bool :=
  prefix sub s || match s with EmptyString => false | String _ r => contains sub r end.

Definition SUPPORTED_EXTENSIONS : list string :=
  [".pdf"; ".docx"; ".txt"; ".md"; ".markdown"; ".json"].

(** [validate_file_upload] of src/app/main.py: [inl code] is the
    HTTPException raised, [inr ext] the validated extension.  The MIME
    check only logs. *)
Definition validate_file_upload (filename : string) (file_size max_file_size : Z)
  : Z + string :=
  if is_empty filename then inl 400
  else if contains ".." filename || contains "/" filename || contains "\" filename
  then inl 400
  else
    let file_ext := snd (splitext (lower filename)) in
    if negb (existsb (String.eqb file_ext) SUPPORTED_EXTENSIONS) then inl 400
    else if (file_size =? 0)%Z then inl 400
    else if (file_size >? max_file_size)%Z then inl 413
    else inr file_ext.

(** [os.path.join(a, b)] *)
Definition os_path_join (a b : string) : string :=
  if prefix "/" b then b
  else if is_empty a || String.eqb (substring (String.length a - 1) 1 a) "/" then a ++ b
  else a ++ "/" ++ b.

(** The characters of tempfile's random names. *)
Definition tmp_name_char (c : ascii) : bool :=
  existsb (Ascii.eqb c) (list_ascii_of_string "abcdefghijklmnopqrstuvwxyz0123456789_").

(** [NamedTemporaryFile(suffix=file_ext).name]: [dir/tmp<rnd><suffix>]. *)
Definition tmp_file_name (dir rnd suffix : string) : string :=
  os_path_join dir ("tmp" ++ rnd ++ suffix).

(** The reader [ingest_doc] ends up in for an upload: validation, then the
    extension of the lowercased filename as the temporary file's suffix,
    then [build_doc_chunks] extracting from that file.  [inl code] is an
    HTTP error: 400/413 from validation, 500 when extraction raises. *)
Definition ingest_reader (filename : string) (file_size max_file_size : Z)
    (dir rnd : string) : Z + reader :=
  match validate_file_upload filename file_size max_file_size with
  | inl code => inl code
  | inr _ =>
      let file_ext := snd (splitext (lower filename)) in
      match extract_reader (tmp_file_name dir rnd file_ext) with
      | Some r => inr r
      | None => inl 500
      end
  end.

End Files.

(** ** The rest of the store's API and the endpoints of src/app/main.py
    that call it.  An endpoint's HTTPException is [inl code] in the
    result; a normal response is [inr]. *)
Module Api.
Import Py Store.
Local Open Scope store_scope.
Local Open Scope string_scope.

(** [list_collections]: the names of the stored collections, [] on any
    error. *)
Definition list_collections : M (list string) :=
  fun st => if st_io_ok st then (inr (map fst (st_client st)), st) else (inr [], st).

(** [clear_cache]: [_query_cache = {}]. *)
Definition clear_cache : M unit :=
  st <- get ;; put (set_cache [] st).

Definition listed (name : string) (names : list string) : bool :=
  existsb (String.eqb name) names.

(** [delete_namespace_endpoint] *)
Definition delete_namespace_endpoint (namespace_name : string) : M (Z + unit) :=
  if String.eqb namespace_name "default" then ret (inl 400%Z)
  else
    existing_namespaces <- list_collections ;;
    if negb (listed namespace_name existing_namespaces) then ret (inl 404%Z)
    else try_except (delete_namespace namespace_name ;; ret (inr tt))
                    (fun _ => ret (inl 500%Z)).

(** A character of the class [[a-zA-Z0-9_-]]. *)
Definition name_char (c : ascii) : bool :=
  let n := nat_of_ascii c in
  (Nat.leb 97 n && Nat.leb n 122) || (Nat.leb 65 n && Nat.leb n 90)
  || (Nat.leb 48 n && Nat.leb n 57) || Nat.eqb n 95 || Nat.eqb n 45.

Definition name_run (l : list ascii) : bool :=
  negb (match l with [] => true | _ => false end) && forallb name_char l.

(** [re.match(r'^[a-zA-Z0-9_-]+$', s)] succeeds: [$] also matches before a
    final newline. *)
Definition name_matches (s : string) : bool :=
  let l := list_ascii_of_string s in
  name_run l
  || match rev l with
     | c :: r => Nat.eqb (nat_of_ascii c) 10 && name_run (rev r)
     | [] => false
     end.

(** [sorted(xs)] on a list of strings (ASCII strings compare by code
    point, as [String.leb] does). *)
Fixpoint insert_sorted (x : string) (l : list string) : list string :=
  match l with
  | [] => [x]
  | y :: r => if String.leb x y then x :: l else y :: insert_sorted x r
  end.

Definition sorted_strings (l : list string) : list string := fold_right insert_sorted [] l.

(** One entry of [namespace_info] in [list_namespaces]. *)
Record ns_info := mk_ns_info { i_name : string; i_count : Z; i_default : bool }.

(** [collection.count()] *)
Definition col_count (namespace : string) : M Z :=
  c <- col_fetch namespace ;; ret (Z.of_nat (length c)).

Section WithNames0.
Variable valid_name : string -> bool.

(** The loop of [list_namespaces] over the sorted names. *)
Fixpoint namespace_infos (names : list string) : M (list ns_info) :=
  match names with
  | [] => ret []
  | namespace :: rest =>
      count <- try_except (get_collection valid_name namespace ;; col_count namespace)
                          (fun _ => ret 0%Z) ;;
      infos <- namespace_infos rest ;;
      ret (mk_ns_info namespace count (String.eqb namespace "default") :: infos)
  end.

(** [list_namespaces] *)
Definition list_namespaces : M (Z + list ns_info) :=
  try_except
    (namespaces <- list_collections ;;
     let namespaces :=
       if listed "default" namespaces then namespaces else (namespaces ++ ["default"])%list in
     namespace_info <- namespace_infos (sorted_strings namespaces) ;;
     ret (inr namespace_info))
    (fun _ => ret (inl 500%Z)).

(** [create_namespace]: the created name, or the HTTPException's code. *)
Definition create_namespace (name : string) : M (Z + string) :=
  if is_empty name || is_empty (strip name) then ret (inl 400%Z)
  else
    let name := strip name in
    if negb (name_matches name) then ret (inl 400%Z)
    else
      existing_namespaces <- list_collections ;;
      if listed name existing_namespaces then ret (inl 409%Z)
      else try_except (get_collection valid_name name ;; ret (inr name))
                      (fun _ => ret (inl 500%Z)).

End WithNames0.

Section WithNames.
Variable valid_name : string -> bool.

(** [delete_document_endpoint]: the number of chunks deleted, or 404 when
    it is 0. *)
Definition delete_document_endpoint (namespace_name doc_id : string) : M (Z + Z) :=
  existing_namespaces <- list_collections ;;
  if negb (listed namespace_name existing_namespaces)
     && negb (String.eqb namespace_name "default")
  then ret (inl 404%Z)
  else try_except
         (deleted_chunks <- delete_document valid_name namespace_name doc_id ;;
          ret (if (deleted_chunks =? 0)%Z then inl 404%Z else inr deleted_chunks))
         (fun _ => ret (inl 500%Z)).

End WithNames.

(** One entry of the [documents] dict of [list_namespace_documents]. *)
Record doc_summary := mk_summary {
  s_doc_id : mval; s_filename : mval; s_namespace : string;
  s_chunk_count : Z; s_session_id : mval }.

Definition mval_eqb (a b : mval) : bool :=
  match a, b with
  | MStr x, MStr y => String.eqb x y
  | MInt x, MInt y => (x =? y)%Z
  | _, _ => false
  end.

(** A Python dict keyed by metadata values. *)
Fixpoint mdict_get {V} (k : mval) (d : list (mval * V)) : option V :=
  match d with
  | [] => None
  | (k', v) :: r => if mval_eqb k k' then Some v else mdict_get k r
  end.

Fixpoint mdict_set {V} (k : mval) (v : V) (d : list (mval * V)) : list (mval * V) :=
  match d with
  | [] => [(k, v)]
  | (k', v') :: r => if mval_eqb k k' then (k', v) :: r else (k', v') :: mdict_set k v r
  end.

(** The loop of [list_namespace_documents] over [all_docs["metadatas"]]. *)
Fixpoint group_documents (namespace_name : string) (documents : list (mval * doc_summary))
    (metadatas : list metadata) : list (mval * doc_summary) :=
  match metadatas with
  | [] => documents
  | metadata :: rest =>
      let doc_id := dict_get "doc_id" metadata in
      let filename := dict_get "filename" metadata in
      let documents' :=
        match doc_id, filename with
        | Some d, Some f =>
            if truthy doc_id && truthy filename then
              let documents1 :=
                match mdict_get d documents with
                | Some _ => documents
                | None =>
                    mdict_set d (mk_summary d f namespace_name 0
                                   (match dict_get "session_id" metadata with
                                    | Some s => s | None => MStr "unknown" end))
                              documents
                end in
              match mdict_get d documents1 with
              | Some s =>
                  mdict_set d (mk_summary (s_doc_id s) (s_filename s) (s_namespace s)
                                          (s_chunk_count s + 1) (s_session_id s)) documents1
              | None => documents1
              end
            else documents
        | _, _ => documents
        end in
      group_documents namespace_name documents' rest
  end.

Section WithNames2.
Variable valid_name : string -> bool.

(** [list_namespace_documents]: the document list and [total_chunks]. *)
Definition list_namespace_documents (namespace_name : string)
  : M (Z + (list doc_summary * Z)) :=
  existing_namespaces <- list_collections ;;
  if negb (listed namespace_name existing_namespaces)
     && negb (String.eqb namespace_name "default")
  then ret (inl 404%Z)
  else try_except
         (get_collection valid_name namespace_name ;;
          all_docs <- col_fetch namespace_name ;;
          let documents := group_documents namespace_name [] (map e_meta all_docs) in
          ret (inr (map snd documents, Z.of_nat (length all_docs))))
         (fun _ => ret (inl 500%Z)).

End WithNames2.

(** Every cached collection handle names a stored collection. *)
Definition handles_valid (st : state) : Prop :=
  forall n, In n (st_handles st) -> dict_get n (st_client st) <> None.

(** The number of chunks [list_namespace_documents] counts for [d]. *)
Definition listed_chunks (d : mval) (metadatas : list metadata) : nat :=
  length (filter (fun md =>
                    match dict_get "doc_id" md with
                    | Some d' => truthy (Some d') && truthy (dict_get "filename" md)
                                 && mval_eqb d' d
                    | None => false
                    end) metadatas).

End Api.

(** * Properties *)

Import Py Ingest Store.

(** ** Helper lemmas: rounding to three decimals *)

Lemma round_half_even_bounds (x : Q) :
  (Qfloor x <= round_half_even x <= Qfloor x + 1)%Z.
Proof.
  unfold round_half_even.
  destruct (Qcompare _ _); [destruct (Z.even _)|..]; lia.
Qed.

Lemma round_half_even_mono (x y : Q) :
  (x <= y)%Q -> (round_half_even x <= round_half_even y)%Z.
Proof.
  intros Hxy. pose proof (Qfloor_resp_le _ _ Hxy) as Hf.
  destruct (Z.lt_ge_cases (Qfloor x) (Qfloor y)) as [Hlt|Hge].
  - pose proof (round_half_even_bounds x); pose proof (round_half_even_bounds y); lia.
  - assert (Heq : Qfloor x = Qfloor y) by lia.
    unfold round_half_even. rewrite <- Heq.
    set (f := Qfloor x).
    destruct (Qcompare_spec (x - inject_Z f) (1 # 2)) as [Ex|Ex|Ex];
    destruct (Qcompare_spec (y - inject_Z f) (1 # 2)) as [Ey|Ey|Ey];
    try (destruct (Z.even f)); try lia; exfalso; lra.
Qed.

Lemma round3_mono (x y : Q) : (x <= y)%Q -> (round3 x <= round3 y)%Q.
Proof.
  intros Hxy. unfold round3.
  assert (H : (x * 1000 <= y * 1000)%Q) by lra.
  pose proof (round_half_even_mono _ _ H) as Hr.
  unfold Qle; cbn [Qnum Qden]. lia.
Qed.

Lemma round3_unit_interval (x : Q) :
  (0 <= x <= 1)%Q -> (0 <= round3 x <= 1)%Q.
Proof.
  intros [H0 H1].
  pose proof (round3_mono _ _ H0) as A. pose proof (round3_mono _ _ H1) as B.
  assert (E0 : round3 0 = 0 # 1000) by reflexivity.
  assert (E1 : round3 1 = 1000 # 1000) by reflexivity.
  rewrite E0 in A. rewrite E1 in B.
  split; [eapply Qle_trans; [|exact A] | eapply Qle_trans; [exact B|]]; unfold Qle; simpl; lia.
Qed.

Lemma inv_one_plus_pos (d : Q) : (0 <= d)%Q -> (0 < / (1 + d) <= 1)%Q.
Proof.
  intros Hd. split.
  - apply Qinv_lt_0_compat. lra.
  - apply Qle_shift_inv_r; lra.
Qed.

(** ** The chunker *)

Local Open Scope string_scope.

(** C3 (code_bug).  [chunk_text] can return a chunk longer than
    [chunk_size] that is made of two sentences, each of which fits: the
    running length [cur_len] adds the sentences' lengths but not the
    spaces that [" ".join(cur)] puts between them.  Here two sentences of
    20 characters, [chunk_size] 40, [overlap] 5: one chunk of 41. *)
Theorem chunk_text_exceeds_chunk_size :
  Py.split_sentences (Py.strip "aaaaaaaaaaaaaaaaaaa. bbbbbbbbbbbbbbbbbbb.")
    = ["aaaaaaaaaaaaaaaaaaa."; "bbbbbbbbbbbbbbbbbbb."]
  /\ Py.len "aaaaaaaaaaaaaaaaaaa." = 20
  /\ Py.len "bbbbbbbbbbbbbbbbbbb." = 20
  /\ chunk_text "aaaaaaaaaaaaaaaaaaa. bbbbbbbbbbbbbbbbbbb." 40 5
       = ["aaaaaaaaaaaaaaaaaaa. bbbbbbbbbbbbbbbbbbb."]
  /\ Py.len "aaaaaaaaaaaaaaaaaaa. bbbbbbbbbbbbbbbbbbb." = 41.
Proof. repeat split; vm_compute; reflexivity. Qed.

(** C4 (code_bug).  After a rollover the next chunk is seeded with the
    last [overlap] whitespace tokens (words) of the closed chunk,
    [split()[-overlap:]], not with its last [overlap] characters: with
    [overlap] 2 the seed is the two words "bbbbbbbbbb cccccccccc." (22
    characters), where the last two characters "c." lie in the single word
    "cccccccccc.". *)
Theorem chunk_overlap_counts_words :
  chunk_text "aaaaaaaaaa bbbbbbbbbb cccccccccc. dddddddddd eeeeeeeeee." 40 2
    = ["aaaaaaaaaa bbbbbbbbbb cccccccccc.";
       "bbbbbbbbbb cccccccccc. dddddddddd eeeeeeeeee."]
  /\ Py.slice_from (-2) (Py.split_ws "aaaaaaaaaa bbbbbbbbbb cccccccccc.")
       = ["bbbbbbbbbb"; "cccccccccc."]
  /\ Py.len "bbbbbbbbbb cccccccccc." = 22.
Proof. repeat split; vm_compute; reflexivity. Qed.

(** C5 counterexample: an accumulated chunk of exactly 30 characters is
    dropped, since the filter is [len(c.strip()) > 30]. *)
Lemma chunk_text_drops_30_char_chunk :
  accumulated "aaaaaaaaaaaaaaaaaaaaaaaaaaaaa." 900 150 = ["aaaaaaaaaaaaaaaaaaaaaaaaaaaaa."]
  /\ Py.len "aaaaaaaaaaaaaaaaaaaaaaaaaaaaa." = 30
  /\ chunk_text "aaaaaaaaaaaaaaaaaaaaaaaaaaaaa." 900 150 = [].
Proof. repeat split; vm_compute; reflexivity. Qed.

(** C5 (amended).  Empty input yields the empty list; otherwise the result
    is the list of accumulated chunks, in order and with repetitions, each
    stripped, keeping exactly those whose stripped length exceeds 30
    characters (a chunk of 30 is dropped). *)
Theorem chunk_text_keeps_longer_than_30 :
  (forall chunk_size overlap, chunk_text "" chunk_size overlap = [])
  /\ (forall text chunk_size overlap c,
        In c (chunk_text text chunk_size overlap) <->
        exists a, In a (accumulated text chunk_size overlap)
                  /\ c = Py.strip a /\ 30 < Py.len c)
  /\ (forall text chunk_size overlap,
        chunk_text text chunk_size overlap
        = keep_long_chunks (accumulated text chunk_size overlap)).
Proof.
  split; [|split].
  - intros cs ov. unfold chunk_text, accumulated. cbn.
    destruct (0 >? cs); reflexivity.
  - intros text cs ov c. unfold chunk_text. rewrite in_map_iff. split.
    + intros [a [Ha Hin]]. apply filter_In in Hin as [Hin Hlen].
      apply Z.gtb_lt in Hlen. exists a. subst c. auto.
    + intros [a [Hin [Hc Hlen]]]. exists a. split; [now symmetry|].
      apply filter_In. split; [exact Hin|]. apply Z.gtb_lt. now subst c.
  - intros text cs ov. unfold chunk_text.
    induction (accumulated text cs ov) as [|a l IH]; [reflexivity|].
    cbn [filter keep_long_chunks]. rewrite Z.gtb_ltb.
    destruct (30 <? len (strip a))%Z; cbn [map]; now rewrite IH.
Qed.

Local Close Scope string_scope.

(** ** Relevance scores *)

(** C2 counterexample: the stored score is rounded to three decimals, so
    two different distances can get the same score, a large distance gets
    score 0, and the score differs from [1/(1+d)] (here for d = 2). *)
Lemma relevance_score_cex :
  (0 < 1 # 10000)%Q
  /\ (relevance (Some 0) == relevance (Some (1 # 10000)))%Q
  /\ (relevance (Some 10000) == 0)%Q
  /\ ~ (relevance (Some 2) == / (1 + 2))%Q.
Proof.
  repeat split; try (vm_compute; reflexivity).
  intro H. vm_compute in H. discriminate.
Qed.

(** C2 (amended).  A result's score is [round(1/(1+d), 3)].  The exact
    score [1/(1+d)] is strictly decreasing in [d >= 0], lies in (0,1] and
    is 1 at d = 0; the rounded score is 1 at d = 0, non-increasing in d and
    lies in [0,1]. *)
Theorem relevance_score_rounded :
  (forall h, r_score (format_hit h) = round3 (/ (1 + snd h)))
  /\ (forall d1 d2, (0 <= d1)%Q -> (d1 < d2)%Q -> (/ (1 + d2) < / (1 + d1))%Q)
  /\ (forall d, (0 <= d)%Q -> (0 < / (1 + d) <= 1)%Q)
  /\ (/ (1 + 0) == 1)%Q
  /\ (relevance (Some 0) == 1)%Q
  /\ (forall d1 d2, (0 <= d1)%Q -> (d1 <= d2)%Q ->
        (relevance (Some d2) <= relevance (Some d1))%Q)
  /\ (forall d, (0 <= d)%Q -> (0 <= relevance (Some d) <= 1)%Q).
Proof.
  split; [reflexivity|]. split.
  { intros d1 d2 H0 H. apply (Qinv_lt_contravar (1 + d1) (1 + d2)); lra. }
  split; [exact inv_one_plus_pos|].
  split; [reflexivity|]. split; [reflexivity|]. split.
  - intros d1 d2 H0 H. unfold relevance. apply round3_mono.
    destruct (Qlt_le_dec d1 d2) as [Hl|Hg].
    + apply Qlt_le_weak, (Qinv_lt_contravar (1 + d1) (1 + d2)); lra.
    + assert (E : (d1 == d2)%Q) by lra. rewrite E. apply Qle_refl.
  - intros d Hd. unfold relevance. apply round3_unit_interval.
    destruct (inv_one_plus_pos d Hd). split; [apply Qlt_le_weak|]; assumption.
Qed.

(** Witness of [relevance_score_rounded] at distances 1 and 2. *)
Lemma relevance_score_rounded_witness :
  (/ (1 + 2) < / (1 + 1))%Q /\ (relevance (Some 2) <= relevance (Some 1))%Q.
Proof.
  destruct relevance_score_rounded as (_ & Hs & _ & _ & _ & Hm & _).
  split; [apply Hs | apply Hm]; vm_compute; try discriminate; reflexivity.
Defined.

(** ** The query cache *)

Lemma dict_set_fresh {V} (k : string) (v : V) (d : list (string * V)) :
  dict_get k d = None -> dict_set k v d = d ++ [(k, v)].
Proof.
  induction d as [|[k' v'] r IH]; cbn; [reflexivity|].
  destruct (String.eqb k k'); [discriminate|]. intros H. now rewrite IH.
Qed.

Lemma dict_get_tail {V} (k : string) (x : string * V) (r : list (string * V)) :
  dict_get k (x :: r) = None -> dict_get k r = None.
Proof. destruct x as [k' v']; cbn. now destruct (String.eqb k k'). Qed.

(** C7.  With capacity 2, caching the results of three distinct queries in
    turn leaves exactly the second and the third; in general, caching a
    fresh key into a cache holding at least [_cache_max_size] entries
    (a capacity of at least 1) drops exactly the first, oldest-inserted,
    entry and appends the new one. *)
Theorem cache_fifo_eviction :
  (forall st r1 r2 r3,
      st_cache st = [] -> st_cache_on st = true -> st_cache_max st = 2 ->
      let k1 := _get_cache_key "ns" "Q1" 5 in
      let k2 := _get_cache_key "ns" "Q2" 5 in
      let k3 := _get_cache_key "ns" "Q3" 5 in
      (_cache_result k1 r1 ;; _cache_result k2 r2 ;; _cache_result k3 r3)%store st
        = (inr tt, set_cache [(k2, r2); (k3, r3)] st))
  /\ (forall st key result oldest rest,
      st_cache_on st = true -> (1 <= st_cache_max st)%Z ->
      dict_get key (st_cache st) = None ->
      st_cache st = oldest :: rest ->
      (Z.of_nat (length (st_cache st)) >= st_cache_max st)%Z ->
      _cache_result key result st = (inr tt, set_cache (rest ++ [(key, result)]) st))
  /\ (forall st key result,
      st_cache_on st = true ->
      dict_get key (st_cache st) = None ->
      (Z.of_nat (length (st_cache st)) < st_cache_max st)%Z ->
      _cache_result key result st = (inr tt, set_cache (st_cache st ++ [(key, result)]) st)).
Proof.
  split; [|split].
  - intros [c h q on mx io mo] r1 r2 r3; cbn -[Z.of_nat]. intros -> -> ->. reflexivity.
  - intros [c h q on mx io mo] key result oldest rest; cbn -[Z.of_nat]. intros -> Hmx Hfresh -> Hlen.
    unfold _cache_result, bind, get, put, ret; cbn -[Z.of_nat].
    destruct (Z.geb_spec (Z.of_nat (S (length rest))) mx); [|simpl length in Hlen; lia]. cbn -[Z.of_nat].
    rewrite (dict_set_fresh _ _ _ (dict_get_tail _ _ _ Hfresh)). reflexivity.
  - intros [c h q on mx io mo] key result; cbn -[Z.of_nat]. intros -> Hfresh Hlen.
    unfold _cache_result, bind, get, put, ret; cbn -[Z.of_nat].
    destruct (Z.geb_spec (Z.of_nat (length q)) mx); [lia|]. cbn -[Z.of_nat].
    rewrite (dict_set_fresh _ _ _ Hfresh). reflexivity.
Qed.

(** Witness of [cache_fifo_eviction] on a fresh cache of capacity 2. *)
Lemma cache_fifo_eviction_witness :
  let st := set_cache [] (mk_state [] [] [] true 2 true true) in
  (_cache_result (_get_cache_key "ns" "Q1" 5) [] ;;
   _cache_result (_get_cache_key "ns" "Q2" 5) [] ;;
   _cache_result (_get_cache_key "ns" "Q3" 5) [])%store st
  = (inr tt, set_cache [(_get_cache_key "ns" "Q2" 5, []); (_get_cache_key "ns" "Q3" 5, [])] st).
Proof.
  intro st. destruct cache_fifo_eviction as [H _].
  apply (H st [] [] []); reflexivity.
Defined.

(** ** Concrete runs of the store *)

Local Open Scope string_scope.

(** C1 (code_bug).  The cache key [f"{namespace}:{query_text}:{k}"] is the
    same string for namespace "abc" with query "x:q" and for namespace
    "abc:x" with query "q".  After a query on "abc" has been cached, a query
    on "abc:x", which holds no collection (Chroma would even refuse the
    name), is answered from the cache before any collection is touched and
    returns the chunk upserted under "abc". *)
Theorem cache_key_collision_crosses_namespaces :
  let st1 := snd (upsert_chunks Demo.enc Demo.chroma_valid_name "abc" [Demo.chunk_d1] Demo.st0) in
  let st2 := snd (query Demo.enc Demo.chroma_valid_name "abc" "x:q" 5 true st1) in
  Demo.chroma_valid_name "abc" = true
  /\ fst (upsert_chunks Demo.enc Demo.chroma_valid_name "abc" [Demo.chunk_d1] Demo.st0) = inr tt
  /\ _get_cache_key "abc" "x:q" 5 = _get_cache_key "abc:x" "q" 5
  /\ dict_get "abc:x" (st_client st2) = None
  /\ fst (query Demo.enc Demo.chroma_valid_name "abc:x" "q" 5 true st2) = inr [Demo.r_d1]
  /\ r_id Demo.r_d1 = c_id Demo.chunk_d1
  /\ r_meta Demo.r_d1 = c_meta Demo.chunk_d1.
Proof. cbv zeta. repeat split; vm_compute; reflexivity. Qed.

(** C8 counterexample.  The cache is not invalidated by deletions: after
    the only document of "docs" is deleted, the namespace holds no vector,
    yet the repeated query returns the cached, non-empty result. *)
Lemma query_returns_stale_cache :
  let st1 := snd (upsert_chunks Demo.enc Demo.chroma_valid_name "docs" [Demo.chunk_d1] Demo.st0) in
  let st2 := snd (query Demo.enc Demo.chroma_valid_name "docs" "hello" 5 true st1) in
  let st3 := snd (delete_document Demo.chroma_valid_name "docs" "d1" st2) in
  fst (delete_document Demo.chroma_valid_name "docs" "d1" st2) = inr 1%Z
  /\ dict_get "docs" (st_client st3) = Some []
  /\ fst (query Demo.enc Demo.chroma_valid_name "docs" "hello" 5 true st3)
     = inr [mk_qresult "d1-0" "Alpha beta gamma." [("doc_id", MStr "d1"); ("chunk", MInt 0)]
                       (Some 144%Q) (7 # 1000)].
Proof. cbv zeta. repeat split; vm_compute; reflexivity. Qed.

(** C9 counterexample.  [delete_document] on a namespace with no collection
    returns 0 but creates the collection (through [get_collection]). *)
Lemma delete_document_creates_namespace :
  fst (delete_document Demo.chroma_valid_name "ghost" "d1" Demo.st0) = inr 0%Z
  /\ st_client Demo.st0 = []
  /\ st_client (snd (delete_document Demo.chroma_valid_name "ghost" "d1" Demo.st0)) = [("ghost", [])].
Proof. repeat split; vm_compute; reflexivity. Qed.

(** C10 counterexample.  When the storage layer raises, [delete_namespace]
    returns normally but keeps the cached handle of the namespace. *)
Lemma delete_namespace_keeps_handle_on_failure :
  let st := mk_state [("docs", [])] ["docs"] [] true 100 false true in
  delete_namespace "docs" st = (inr tt, st) /\ In "docs" (st_handles st).
Proof. cbv zeta. split; [reflexivity | left; reflexivity]. Qed.

(** C6 counterexample.  An empty doc_id is falsy: each ingestion draws a
    fresh uuid, the chunk ids differ, and the second upsert adds a second
    copy of the chunk instead of overwriting the first. *)
Lemma reingest_empty_doc_id_duplicates :
  let md := [("doc_id", MStr "")] in
  let b1 := build_doc_chunks Demo.doc_text md 900 150 "u1" in
  let b2 := build_doc_chunks Demo.doc_text md 900 150 "u2" in
  map c_id b1 = ["u1-0"] /\ map c_id b2 = ["u2-0"]
  /\ option_map (@length entry)
       (dict_get "docs" (st_client (snd (upsert_chunks Demo.enc Demo.chroma_valid_name "docs" b2
          (snd (upsert_chunks Demo.enc Demo.chroma_valid_name "docs" b1 Demo.st0))))))
     = Some 2%nat.
Proof. cbv zeta. repeat split; vm_compute; reflexivity. Qed.

Local Close Scope string_scope.

(** ** Monad and primitive lemmas *)

Lemma bind_inr {A B} (m : M A) (f : A -> M B) st a st' :
  m st = (inr a, st') -> bind m f st = f a st'.
Proof. intros H. unfold bind. now rewrite H. Qed.

Lemma bind_inl {A B} (m : M A) (f : A -> M B) st e st' :
  m st = (inl e, st') -> bind m f st = (inl e, st').
Proof. intros H. unfold bind. now rewrite H. Qed.

Lemma dict_get_app_fresh {V} (k n : string) (v : V) (d : list (string * V)) :
  dict_get n d = None ->
  dict_get k (d ++ [(n, v)]) = if String.eqb k n then Some v else dict_get k d.
Proof.
  induction d as [|[k' v'] r IH]; cbn; intros H; [now destruct (String.eqb k n)|].
  destruct (String.eqb n k') eqn:Enk; [discriminate|].
  destruct (String.eqb k k') eqn:Ekk; [|now apply IH].
  apply String.eqb_eq in Ekk; subst k'.
  destruct (String.eqb k n) eqn:Ekn; [|reflexivity].
  apply String.eqb_eq in Ekn; subst n. now rewrite String.eqb_refl in Enk.
Qed.

Lemma dict_get_set {V} (k n : string) (v : V) (d : list (string * V)) :
  dict_get k (dict_set n v d) = if String.eqb k n then Some v else dict_get k d.
Proof.
  induction d as [|[k' v'] r IH]; cbn; [reflexivity|].
  destruct (String.eqb n k') eqn:Enk; cbn.
  - apply String.eqb_eq in Enk; subst k'. now destruct (String.eqb k n).
  - destruct (String.eqb k k') eqn:Ekk; [|exact IH].
    apply String.eqb_eq in Ekk; subst k'.
    destruct (String.eqb k n) eqn:Ekn; [|reflexivity].
    apply String.eqb_eq in Ekn; subst n. now rewrite String.eqb_refl in Enk.
Qed.

Lemma dict_set_get_same {V} (k : string) (v : V) (d : list (string * V)) :
  dict_get k d = Some v -> dict_set k v d = d.
Proof.
  induction d as [|[k' v'] r IH]; cbn; [discriminate|].
  destruct (String.eqb k k') eqn:E.
  - intros H; injection H as ->. apply String.eqb_eq in E; now subst.
  - intros H. now rewrite IH.
Qed.

(** What [get_collection] may change: at most it creates an empty collection
    for the namespace and registers its handle. *)
Ltac split_match H :=
  repeat (first
    [ match type of H with context [if ?b then _ else _] => destruct b eqn:? end
    | match type of H with context [match ?x with Some _ => _ | None => _ end] =>
        destruct x eqn:? end ];
    cbn -[dict_get existsb String.eqb] in H).

Lemma get_collection_spec valid_name namespace st r st' :
  get_collection valid_name namespace st = (r, st') ->
  st_io_ok st' = st_io_ok st /\ st_model_ok st' = st_model_ok st
  /\ st_cache st' = st_cache st
  /\ (forall c, dict_get namespace (st_client st') = Some c ->
        dict_get namespace (st_client st) = Some c \/ c = [])
  /\ (forall n, n <> namespace -> dict_get n (st_client st') = dict_get n (st_client st))
  /\ (dict_get namespace (st_client st) <> None -> st_client st' = st_client st).
Proof.
  intros H.
  unfold get_collection, try_except, client_get_collection, client_create_collection,
    storage_ok, bind, get, put, ret, raise in H.
  cbn -[dict_get existsb String.eqb] in H.
  split_match H.
  all: injection H as <- <-; cbn -[dict_get String.eqb].
  all: try (repeat split; intros; first [left; congruence | congruence | tauto]; fail).
  match goal with E : dict_get namespace (st_client st) = None |- _ => rename E into Eg end.
  repeat split; auto; try congruence.
  - intros c Hc. rewrite dict_get_app_fresh in Hc by exact Eg.
    rewrite String.eqb_refl in Hc. injection Hc as <-. now right.
  - intros n Hn. rewrite dict_get_app_fresh by exact Eg.
    destruct (String.eqb n namespace) eqn:E; [apply String.eqb_eq in E; congruence|reflexivity].
Qed.



(** ** Deleting a namespace *)

Lemma delete_namespace_effect namespace st :
  delete_namespace namespace st =
    (inr tt,
     if st_io_ok st && match dict_get namespace (st_client st) with
                       | Some _ => true | None => false end
     then set_handles (filter (fun n => negb (String.eqb namespace n)) (st_handles st))
                      (set_client (dict_del namespace (st_client st)) st)
     else st).
Proof.
  unfold delete_namespace, try_except, client_delete_collection, storage_ok,
    bind, get, put, ret, raise.
  cbn -[dict_get String.eqb].
  destruct (st_io_ok st); [|reflexivity].
  destruct (dict_get namespace (st_client st)); reflexivity.
Qed.

(** C10 (amended).  [delete_namespace] never raises, whatever the
    namespace and whether or not its collection exists or the storage
    answers.  When the collection exists and the storage answers, the
    collection is deleted and the namespace's handle is dropped; otherwise
    the error is swallowed and nothing changes, so the handle stays cached
    exactly when the deletion failed. *)
Theorem delete_namespace_never_raises :
  forall namespace st, exists st',
    delete_namespace namespace st = (inr tt, st')
    /\ (In namespace (st_handles st') <->
        In namespace (st_handles st)
        /\ (st_io_ok st = false \/ dict_get namespace (st_client st) = None))
    /\ (st_io_ok st = true -> dict_get namespace (st_client st) <> None ->
        st_client st' = dict_del namespace (st_client st))
    /\ (st_io_ok st = false \/ dict_get namespace (st_client st) = None -> st' = st).
Proof.
  intros namespace st. rewrite delete_namespace_effect.
  eexists; split; [reflexivity|].
  destruct (st_io_ok st) eqn:Eio, (dict_get namespace (st_client st)) eqn:Eg; cbn.
  - split; [|split; [reflexivity|intros [H|H]; discriminate]].
    rewrite filter_In, String.eqb_refl. cbn. split; [intros [_ H]; discriminate|].
    intros [_ [H|H]]; discriminate.
  - split; [tauto|]. split; [intros _ H; now exfalso|reflexivity].
  - split; [tauto|]. split; [discriminate|reflexivity].
  - split; [tauto|]. split; [discriminate|reflexivity].
Qed.

(** Witness of [delete_namespace_never_raises] on an existing collection. *)
Lemma delete_namespace_never_raises_witness :
  let st := mk_state [("docs"%string, [])] ["docs"%string] [] true 100 true true in
  st_client (snd (delete_namespace "docs" st)) = []
  /\ ~ In "docs"%string (st_handles (snd (delete_namespace "docs" st))).
Proof.
  intro st.
  destruct (delete_namespace_never_raises "docs" st) as (st' & E & Hin & Hdel & _).
  rewrite E. cbn [snd]. split.
  - apply Hdel; [reflexivity | discriminate].
  - rewrite Hin. intros [_ [H|H]]; discriminate.
Defined.

(** ** Querying *)

Lemma try_except_total {A} (m : M A) (h : exc -> M A) st :
  (forall e st', exists r st'', h e st' = (inr r, st'')) ->
  exists r st', try_except m h st = (inr r, st').
Proof.
  intros Hh. unfold try_except. destruct (m st) as [[e|a] st']; eauto.
Qed.

Lemma col_query_inv namespace q k st hits st' :
  col_query namespace q k st = (inr hits, st') ->
  st' = st /\ st_io_ok st = true
  /\ exists c, dict_get namespace (st_client st) = Some c
     /\ hits = firstn (Z.to_nat k) (sort_by_dist (map (fun e => (e, sqdist (e_emb e) q)) c)).
Proof.
  unfold col_query, col_fetch, storage_ok, bind, get, ret, raise.
  destruct (st_io_ok st) eqn:Eio; [|discriminate].
  destruct (dict_get namespace (st_client st)) as [c|] eqn:Eg; [|discriminate].
  destruct (k <=? 0)%Z; [discriminate|].
  intros H; injection H as <- <-. eauto.
Qed.

(** On a cache miss, [query] either degrades to [[]] or returns the scored
    nearest vectors of the namespace's collection, as it stands after
    [get_collection]. *)
Lemma query_miss_cases encode valid_name namespace query_text k use_cache st :
  cache_miss use_cache namespace query_text k st ->
  fst (query encode valid_name namespace query_text k use_cache st) = inr []
  \/ exists st1 c,
       get_collection valid_name namespace st = (inr tt, st1)
       /\ st_model_ok st1 = true /\ st_io_ok st1 = true
       /\ dict_get namespace (st_client st1) = Some c
       /\ fst (query encode valid_name namespace query_text k use_cache st)
          = inr (map format_hit (firstn (Z.to_nat k)
                   (sort_by_dist (map (fun e => (e, sqdist (e_emb e) (encode query_text))) c)))).
Proof.
  intros Hm. unfold query.
  assert (Hc : (if use_cache then _get_cached_result (_get_cache_key namespace query_text k)
                else ret None) st = (inr None, st)).
  { destruct use_cache; [|reflexivity].
    unfold _get_cached_result, bind, get, ret.
    destruct Hm as [H|[H|H]]; [discriminate|rewrite H; reflexivity|].
    rewrite H. now destruct (st_cache_on st). }
  rewrite (bind_inr _ _ _ _ _ Hc). unfold try_except.
  destruct (get_collection valid_name namespace st) as [[e|[]] st1] eqn:E1.
  { rewrite (bind_inl _ _ _ _ _ E1). now left. }
  rewrite (bind_inr _ _ _ _ _ E1).
  destruct (st_model_ok st1) eqn:Em.
  2: { rewrite (bind_inl get_model _ st1 EmbeddingUnavailable st1)
         by (unfold get_model; now rewrite Em). now left. }
  rewrite (bind_inr get_model _ st1 tt st1) by (unfold get_model; now rewrite Em).
  destruct (col_query namespace (encode query_text) k st1) as [[e|hits] st2] eqn:E2.
  { rewrite (bind_inl _ _ _ _ _ E2). now left. }
  rewrite (bind_inr _ _ _ _ _ E2).
  destruct (col_query_inv _ _ _ _ _ _ E2) as (-> & Eio & c & Eg & ->).
  destruct ((if use_cache
             then _cache_result (_get_cache_key namespace query_text k)
                    (map format_hit (firstn (Z.to_nat k)
                       (sort_by_dist (map (fun e => (e, sqdist (e_emb e) (encode query_text))) c))))
             else ret tt) st1) as [[e|[]] st3] eqn:E3.
  { rewrite (bind_inl _ _ _ _ _ E3). now left. }
  rewrite (bind_inr _ _ _ _ _ E3). right. exists st1, c. auto.
Qed.

(** C8 (amended).  [query] returns normally for every namespace, text, [k]
    and state: errors of the collection lookup or creation, the embedding
    step, the index search and the cache insertion are caught.  On a cache
    miss, when the storage or the embedding model fails, it returns [[]];
    on a cache miss, a namespace whose collection is absent or holds no
    vector also yields [[]].  (A cache hit returns the cached list as it
    is, see [query_returns_stale_cache].) *)
Theorem query_degrades_to_empty :
  (forall encode valid_name namespace query_text k use_cache st,
      exists r st', query encode valid_name namespace query_text k use_cache st = (inr r, st'))
  /\ (forall encode valid_name namespace query_text k use_cache st,
      cache_miss use_cache namespace query_text k st ->
      st_io_ok st = false \/ st_model_ok st = false ->
      fst (query encode valid_name namespace query_text k use_cache st) = inr [])
  /\ (forall encode valid_name namespace query_text k use_cache st,
      cache_miss use_cache namespace query_text k st ->
      (forall c, dict_get namespace (st_client st) = Some c -> c = []) ->
      fst (query encode valid_name namespace query_text k use_cache st) = inr []).
Proof.
  split; [|split].
  - intros encode valid_name namespace query_text k use_cache st.
    assert (Hc : exists o, (if use_cache
                            then _get_cached_result (_get_cache_key namespace query_text k)
                            else ret None) st = (inr o, st))
      by (destruct use_cache; eexists; reflexivity).
    destruct Hc as [o Ho]. unfold query. rewrite (bind_inr _ _ _ _ _ Ho).
    destruct o as [r|]; [exists r, st; reflexivity|].
    apply try_except_total. intros e st'. exists [], st'. reflexivity.
  - intros encode valid_name namespace query_text k use_cache st Hm Hf.
    destruct (query_miss_cases encode valid_name namespace query_text k use_cache st Hm)
      as [H|(st1 & c & E1 & Em & Eio & _)]; [exact H|].
    destruct (get_collection_spec _ _ _ _ _ E1) as (Hio & Hmo & _).
    exfalso. destruct Hf; congruence.
  - intros encode valid_name namespace query_text k use_cache st Hm Hempty.
    destruct (query_miss_cases encode valid_name namespace query_text k use_cache st Hm)
      as [H|(st1 & c & E1 & _ & _ & Eg & ->)]; [exact H|].
    destruct (get_collection_spec _ _ _ _ _ E1) as (_ & _ & _ & Hc & _).
    destruct (Hc c Eg) as [H|H]; [apply Hempty in H|]; subst c;
      cbn; now rewrite firstn_nil.
Qed.

(** Witness of [query_degrades_to_empty] on the never-written namespace
    "ghost" of a fresh process, and with the model unavailable. *)
Lemma query_degrades_to_empty_witness :
  fst (query Demo.enc Demo.chroma_valid_name "ghost" "anything" 5 true Demo.st0) = inr []
  /\ fst (query Demo.enc Demo.chroma_valid_name "ghost" "anything" 5 true
            (mk_state [] [] [] true 100 true false)) = inr [].
Proof.
  destruct query_degrades_to_empty as (_ & Hfail & Hempty). split.
  - apply Hempty; [right; right; reflexivity | intros c H; discriminate].
  - apply Hfail; [right; right; reflexivity | right; reflexivity].
Defined.

(** ** Deleting a document *)

Lemma col_fetch_inv namespace st c st' :
  col_fetch namespace st = (inr c, st') ->
  st' = st /\ st_io_ok st = true /\ dict_get namespace (st_client st) = Some c.
Proof.
  unfold col_fetch, storage_ok, bind, get, ret, raise.
  destruct (st_io_ok st); [|discriminate].
  destruct (dict_get namespace (st_client st)); [|discriminate].
  intros H; injection H as <- <-. auto.
Qed.

Lemma NoDup_map_inj {A B} (f : A -> B) (l : list A) a b :
  NoDup (map f l) -> In a l -> In b l -> f a = f b -> a = b.
Proof.
  induction l as [|x r IH]; cbn; [tauto|].
  intros Hnd Ha Hb Hf. inversion Hnd as [|y ys Hx Hnd' Heq]; subst.
  destruct Ha as [<-|Ha], Hb as [<-|Hb]; auto.
  - exfalso. apply Hx. rewrite Hf. now apply in_map.
  - exfalso. apply Hx. rewrite <- Hf. now apply in_map.
Qed.

(** Deleting by the ids of the matching entries removes exactly the
    matching entries, since ids are unique in a collection. *)
Lemma filter_by_ids (p : entry -> bool) (c : collection) :
  NoDup (map e_id c) ->
  filter (fun e => negb (existsb (String.eqb (e_id e)) (map e_id (filter p c)))) c
  = filter (fun e => negb (p e)) c.
Proof.
  intros Hnd. apply filter_ext_in. intros e Hin. f_equal.
  destruct (p e) eqn:Ep.
  - apply existsb_exists. exists (e_id e). split; [|apply String.eqb_refl].
    apply in_map, filter_In. auto.
  - destruct (existsb _ _) eqn:Ex; [|reflexivity].
    apply existsb_exists in Ex as (x & Hx & Exx).
    apply String.eqb_eq in Exx. subst x.
    apply in_map_iff in Hx as (e' & Hid & Hin').
    apply filter_In in Hin' as [Hin' Hp].
    rewrite (NoDup_map_inj e_id c e' e Hnd Hin' Hin Hid) in Hp. congruence.
Qed.

Lemma filter_none (p : entry -> bool) (c : collection) :
  filter p c = [] -> filter (fun e => negb (p e)) c = c.
Proof.
  induction c as [|e r IH]; cbn; [reflexivity|].
  destruct (p e); [discriminate|]. cbn. intros H. now rewrite IH.
Qed.

(** The effect of a [delete_document] call that returns. *)
Lemma delete_document_effect :
  forall valid_name namespace doc_id st n st',
    coll_ids_unique st ->
    delete_document valid_name namespace doc_id st = (inr n, st') ->
    exists c,
      (dict_get namespace (st_client st) = Some c
       \/ (dict_get namespace (st_client st) = None /\ c = []))
      /\ dict_get namespace (st_client st')
         = Some (filter (fun e => negb (doc_matches doc_id e)) c)
      /\ n = Z.of_nat (length (filter (doc_matches doc_id) c))
      /\ (forall other, other <> namespace ->
            dict_get other (st_client st') = dict_get other (st_client st))
      /\ st_cache st' = st_cache st
      /\ (dict_get namespace (st_client st) <> None -> n = 0%Z ->
          st_client st' = st_client st).
Proof.
  intros valid_name namespace doc_id st n st' Hwf H.
  unfold delete_document, try_except in H.
  destruct (get_collection valid_name namespace st) as [[e|[]] st1] eqn:E1.
  { rewrite (bind_inl _ _ _ _ _ E1) in H. discriminate. }
  rewrite (bind_inr _ _ _ _ _ E1) in H.
  destruct (get_collection_spec _ _ _ _ _ E1) as (_ & _ & Hcache & Hnew & Hframe & Hsame).
  destruct (col_fetch namespace st1) as [[e|c] st2] eqn:E2.
  { rewrite (bind_inl _ _ _ _ _ E2) in H. discriminate. }
  rewrite (bind_inr _ _ _ _ _ E2) in H.
  destruct (col_fetch_inv _ _ _ _ E2) as (-> & Eio & Eg1).
  assert (Horig : dict_get namespace (st_client st) = Some c
                  \/ (dict_get namespace (st_client st) = None /\ c = [])).
  { destruct (dict_get namespace (st_client st)) as [c0|] eqn:Eg.
    - left. rewrite <- Eg, <- Hsame by congruence. exact Eg1.
    - right. split; [reflexivity|]. destruct (Hnew c Eg1) as [H'|H']; [discriminate|exact H']. }
  assert (Hnd : NoDup (map e_id c)).
  { destruct Horig as [Hc|[_ ->]]; [exact (Hwf _ _ Hc)|constructor]. }
  exists c. split; [exact Horig|].
  destruct (filter (doc_matches doc_id) c) as [|m ms] eqn:Ef; cbn [map] in H.
  - injection H as <- <-. rewrite (filter_none _ _ Ef).
    repeat split; auto.
  - destruct (col_delete namespace (e_id m :: map e_id ms) st1) as [[e|[]] st3] eqn:E3.
    { rewrite (bind_inl _ _ _ _ _ E3) in H. discriminate. }
    rewrite (bind_inr _ _ _ _ _ E3) in H. injection H as <- <-.
    unfold col_delete in E3. rewrite (bind_inr _ _ _ _ _ E2) in E3.
    unfold col_store, bind, get, put in E3. injection E3 as <-.
    assert (Heq : filter (fun e => negb (existsb (String.eqb (e_id e)) (map e_id (m :: ms)))) c
                  = filter (fun e => negb (doc_matches doc_id e)) c)
      by (rewrite <- Ef; apply filter_by_ids; exact Hnd).
    cbn [existsb map] in Heq. rewrite Heq. cbn [st_client st_cache set_client].
    repeat split.
    + rewrite dict_get_set, String.eqb_refl. reflexivity.
    + cbn [length]. rewrite length_map. lia.
    + intros other Hne. rewrite dict_get_set.
      destruct (String.eqb other namespace) eqn:E; [apply String.eqb_eq in E; congruence|].
      now apply Hframe.
    + exact Hcache.
    + intros _ Hn. lia.
Qed.

(** C9 (amended).  When [delete_document namespace doc_id] returns [n],
    the namespace's collection (the one stored before, or a new empty one
    if there was none) has lost exactly the entries whose metadata doc_id
    is [doc_id]: the others stay, unchanged and in order, so their
    distances, hence scores, for any query are unchanged; [n] is the number
    removed; every other namespace and the query cache are unchanged; and
    when the namespace already had a collection and no entry matched,
    [n = 0] and the stored collections are exactly as before. *)
Theorem delete_document_exact :
  forall valid_name namespace doc_id st n st',
    coll_ids_unique st ->
    delete_document valid_name namespace doc_id st = (inr n, st') ->
    exists c,
      (dict_get namespace (st_client st) = Some c
       \/ (dict_get namespace (st_client st) = None /\ c = []))
      /\ dict_get namespace (st_client st')
         = Some (filter (fun e => negb (doc_matches doc_id e)) c)
      /\ n = Z.of_nat (length (filter (doc_matches doc_id) c))
      /\ (forall other, other <> namespace ->
            dict_get other (st_client st') = dict_get other (st_client st))
      /\ st_cache st' = st_cache st
      /\ (dict_get namespace (st_client st) <> None -> n = 0%Z ->
          st_client st' = st_client st).
Proof. exact delete_document_effect. Qed.

Local Open Scope string_scope.

Lemma delete_document_exact_witness :
  coll_ids_unique Demo.st_docs
  /\ delete_document Demo.chroma_valid_name "docs" "d1" Demo.st_docs
     = (inr 1%Z, set_client [("docs", [Demo.e_d2])] Demo.st_docs)
  /\ exists c,
      (dict_get "docs" (st_client Demo.st_docs) = Some c
       \/ (dict_get "docs" (st_client Demo.st_docs) = None /\ c = []))
      /\ dict_get "docs" (st_client (set_client [("docs", [Demo.e_d2])] Demo.st_docs))
         = Some (filter (fun e => negb (doc_matches "d1" e)) c)
      /\ 1%Z = Z.of_nat (length (filter (doc_matches "d1") c))
      /\ (forall other, other <> "docs" ->
            dict_get other (st_client (set_client [("docs", [Demo.e_d2])] Demo.st_docs))
            = dict_get other (st_client Demo.st_docs))
      /\ st_cache (set_client [("docs", [Demo.e_d2])] Demo.st_docs) = st_cache Demo.st_docs
      /\ (dict_get "docs" (st_client Demo.st_docs) <> None -> 1%Z = 0%Z ->
          st_client (set_client [("docs", [Demo.e_d2])] Demo.st_docs)
          = st_client Demo.st_docs).
Proof.
  assert (Hu : coll_ids_unique Demo.st_docs).
  { intros ns c H. cbn in H. destruct (String.eqb ns "docs"); [|discriminate].
    injection H as <-. cbn. constructor; [cbn; intros [H|[]]; discriminate|].
    constructor; [intros []|constructor]. }
  assert (Hd : delete_document Demo.chroma_valid_name "docs" "d1" Demo.st_docs
               = (inr 1%Z, set_client [("docs", [Demo.e_d2])] Demo.st_docs))
    by reflexivity.
  split; [exact Hu|]. split; [exact Hd|].
  exact (delete_document_exact Demo.chroma_valid_name "docs" "d1" Demo.st_docs 1%Z _ Hu Hd).
Defined.

(** ** Re-ingesting a document *)

(** The vector stored under id [i], as Chroma's [get(ids=[i])] finds it. *)
Definition find_id (i : string) (c : collection) : option entry :=
  find (fun e => String.eqb i (e_id e)) c.

Lemma find_id_upsert_one i e c :
  find_id i (upsert_one e c) = if String.eqb i (e_id e) then Some e else find_id i c.
Proof.
  unfold find_id. induction c as [|e' r IH]; cbn; [destruct (String.eqb i (e_id e)); reflexivity|].
  destruct (String.eqb (e_id e) (e_id e')) eqn:Ee; cbn.
  - apply String.eqb_eq in Ee. rewrite Ee. destruct (String.eqb i (e_id e')); reflexivity.
  - rewrite IH. destruct (String.eqb i (e_id e')) eqn:Ei; [|reflexivity].
    apply String.eqb_eq in Ei. subst i.
    rewrite String.eqb_sym, Ee. reflexivity.
Qed.

Lemma upsert_one_same e c : find_id (e_id e) c = Some e -> upsert_one e c = c.
Proof.
  unfold find_id. induction c as [|e' r IH]; cbn; [discriminate|].
  destruct (String.eqb (e_id e) (e_id e')); [congruence|].
  intros H. now rewrite IH.
Qed.

Lemma find_id_fold_other i es c :
  ~ In i (map e_id es) ->
  find_id i (fold_left (fun c e => upsert_one e c) es c) = find_id i c.
Proof.
  revert c. induction es as [|x r IH]; intros c Hi; cbn [fold_left]; [reflexivity|].
  cbn [map In] in Hi. rewrite IH by tauto. rewrite find_id_upsert_one.
  destruct (String.eqb i (e_id x)) eqn:E; [|reflexivity].
  apply String.eqb_eq in E. exfalso. apply Hi. now left.
Qed.

Lemma find_id_fold_mem es c e :
  NoDup (map e_id es) -> In e es ->
  find_id (e_id e) (fold_left (fun c e => upsert_one e c) es c) = Some e.
Proof.
  revert c. induction es as [|x r IH]; intros c Hnd Hin; [destruct Hin|].
  cbn [map fold_left] in Hnd |- *. inversion Hnd as [|y ys Hx Hnd' Heq]; subst.
  destruct Hin as [<-|Hin].
  - rewrite find_id_fold_other by exact Hx.
    rewrite find_id_upsert_one, String.eqb_refl. reflexivity.
  - now apply IH.
Qed.

Lemma fold_upsert_fixed es c :
  (forall e, In e es -> find_id (e_id e) c = Some e) ->
  fold_left (fun c e => upsert_one e c) es c = c.
Proof.
  induction es as [|x r IH]; intros H; cbn [fold_left]; [reflexivity|].
  rewrite upsert_one_same by (apply H; now left).
  apply IH. intros e He. apply H. now right.
Qed.

(** Upserting the same batch twice stores what upserting it once does. *)
Lemma fold_upsert_idem es c :
  NoDup (map e_id es) ->
  fold_left (fun c e => upsert_one e c) es (fold_left (fun c e => upsert_one e c) es c)
  = fold_left (fun c e => upsert_one e c) es c.
Proof. intros Hnd. apply fold_upsert_fixed. intros e He. now apply find_id_fold_mem. Qed.

Lemma nodupb_NoDup xs : nodupb xs = true -> NoDup xs.
Proof.
  induction xs as [|x r IH]; cbn; [constructor|].
  intros H. apply andb_prop in H as [Hx Hr]. constructor; [|now apply IH].
  intros Hin. apply negb_true_iff in Hx.
  assert (Hex : existsb (String.eqb x) r = true)
    by (apply existsb_exists; exists x; split; [exact Hin|apply String.eqb_refl]).
  congruence.
Qed.

Lemma get_collection_handle valid_name namespace st st' :
  get_collection valid_name namespace st = (inr tt, st') ->
  existsb (String.eqb namespace) (st_handles st') = true.
Proof.
  intros H.
  unfold get_collection, try_except, client_get_collection, client_create_collection,
    storage_ok, bind, get, put, ret, raise in H.
  cbn -[dict_get existsb String.eqb] in H.
  split_match H.
  all: try discriminate.
  all: injection H as <-; cbn -[existsb String.eqb]; try assumption.
  all: rewrite existsb_app; cbn; rewrite String.eqb_refl; apply orb_true_r.
Qed.

Lemma get_collection_known valid_name namespace st :
  existsb (String.eqb namespace) (st_handles st) = true ->
  get_collection valid_name namespace st = (inr tt, st).
Proof. intros H. unfold get_collection, bind, get. now rewrite H. Qed.

Lemma col_fetch_ok namespace st c :
  st_io_ok st = true -> dict_get namespace (st_client st) = Some c ->
  col_fetch namespace st = (inr c, st).
Proof.
  intros Hio Hc. unfold col_fetch, storage_ok, bind, get, ret. now rewrite Hio, Hc.
Qed.

(** A successful [upsert_chunks] followed by the same call changes nothing:
    every id of the batch is overwritten with the vector it already has. *)
Lemma upsert_chunks_idem encode valid_name namespace chunks st st1 :
  upsert_chunks encode valid_name namespace chunks st = (inr tt, st1) ->
  upsert_chunks encode valid_name namespace chunks st1 = (inr tt, st1).
Proof.
  destruct chunks as [|ch r]; cbn [upsert_chunks].
  { unfold ret. congruence. }
  set (es := map (fun c => mk_entry (c_id c) (encode (c_text c)) (c_meta c) (c_text c)) (ch :: r)).
  intros H.
  destruct (get_collection valid_name namespace st) as [[e|[]] s1] eqn:E1.
  { rewrite (bind_inl _ _ _ _ _ E1) in H. discriminate. }
  rewrite (bind_inr _ _ _ _ _ E1) in H.
  destruct (get_model s1) as [[e|[]] s2] eqn:E2.
  { rewrite (bind_inl _ _ _ _ _ E2) in H. discriminate. }
  rewrite (bind_inr _ _ _ _ _ E2) in H.
  unfold get_model in E2. destruct (st_model_ok s1) eqn:Em; [|discriminate].
  injection E2 as <-.
  unfold col_upsert in H.
  destruct (col_fetch namespace s1) as [[e|c] s3] eqn:E3.
  { rewrite (bind_inl _ _ _ _ _ E3) in H. discriminate. }
  rewrite (bind_inr _ _ _ _ _ E3) in H.
  destruct (col_fetch_inv _ _ _ _ E3) as (-> & Eio & Ec).
  destruct (nodupb (map e_id es)) eqn:En; [|discriminate].
  unfold col_store, bind, get, put in H. injection H as <-.
  set (X := fold_left (fun c e => upsert_one e c) es c).
  rewrite (bind_inr _ _ _ _ _
             (get_collection_known valid_name namespace
                (set_client (dict_set namespace X (st_client s1)) s1)
                (get_collection_handle _ _ _ _ E1))).
  assert (Gm : get_model (set_client (dict_set namespace X (st_client s1)) s1)
               = (inr tt, set_client (dict_set namespace X (st_client s1)) s1))
    by (unfold get_model; cbn [st_model_ok set_client]; now rewrite Em).
  rewrite (bind_inr _ _ _ _ _ Gm).
  unfold col_upsert.
  assert (Gc : dict_get namespace (dict_set namespace X (st_client s1)) = Some X)
    by (rewrite dict_get_set, String.eqb_refl; reflexivity).
  rewrite (bind_inr _ _ _ _ _
             (col_fetch_ok namespace (set_client (dict_set namespace X (st_client s1)) s1)
                X Eio Gc)).
  rewrite En. unfold col_store, bind, get, put. cbn [st_client set_client].
  unfold X. rewrite fold_upsert_idem by now apply nodupb_NoDup.
  fold X. rewrite (dict_set_get_same namespace X _ Gc). reflexivity.
Qed.

Lemma doc_id_of_str md fresh d :
  dict_get "doc_id" md = Some (MStr d) -> d <> EmptyString -> doc_id_of md fresh = d.
Proof.
  intros Hd Hne. unfold doc_id_of. rewrite Hd. cbn [truthy py_str].
  destruct d; [congruence|reflexivity].
Qed.

Lemma build_ids_enumerate d md (l : list string) n :
  map c_id (map (fun '(i, ch) =>
                   mk_chunk (d ++ "-" ++ py_str_int (Z.of_nat i)) ch
                            (dict_set "chunk" (MInt (Z.of_nat i)) md))
                (enumerate n l))
  = map (fun i => d ++ "-" ++ py_str_int (Z.of_nat i)) (seq n (length l)).
Proof.
  revert n. induction l as [|x r IH]; intros n; cbn; [reflexivity|].
  f_equal. apply IH.
Qed.

(** C6 (amended).  When the metadata's doc_id is a non-empty string [d],
    the chunk ids are ["{d}-{i}"] for i = 0, 1, ... over the chunks, the
    chunks do not depend on the uuid that would otherwise be drawn, so two
    ingestions of the same text with the same parameters build the same
    chunks (same count, same ids), and once the first upsert has
    succeeded the second one overwrites each stored vector with itself:
    the state, hence the count of stored vectors, is unchanged. *)
Theorem reingest_same_doc_id_idempotent :
  forall encode valid_name text md chunk_size overlap d fresh1 fresh2,
    dict_get "doc_id" md = Some (MStr d) -> d <> EmptyString ->
    map c_id (build_doc_chunks text md chunk_size overlap fresh1)
      = map (fun i => d ++ "-" ++ py_str_int (Z.of_nat i))
            (seq 0 (length (chunk_text text chunk_size overlap)))
    /\ build_doc_chunks text md chunk_size overlap fresh2
       = build_doc_chunks text md chunk_size overlap fresh1
    /\ forall namespace st st1,
         upsert_chunks encode valid_name namespace
           (build_doc_chunks text md chunk_size overlap fresh1) st = (inr tt, st1) ->
         upsert_chunks encode valid_name namespace
           (build_doc_chunks text md chunk_size overlap fresh2) st1 = (inr tt, st1).
Proof.
  intros encode valid_name text md chunk_size overlap d fresh1 fresh2 Hd Hne.
  assert (Hb : build_doc_chunks text md chunk_size overlap fresh2
               = build_doc_chunks text md chunk_size overlap fresh1).
  { unfold build_doc_chunks. now rewrite !(doc_id_of_str md _ d Hd Hne). }
  split; [|split; [exact Hb|]].
  - unfold build_doc_chunks. rewrite (doc_id_of_str md _ d Hd Hne).
    apply build_ids_enumerate.
  - intros namespace st st1 H. rewrite Hb. exact (upsert_chunks_idem _ _ _ _ _ _ H).
Qed.

Lemma reingest_same_doc_id_idempotent_witness :
  let md := [("doc_id", MStr "d1")] in
  let b := build_doc_chunks Demo.doc_text md 900 150 "u1" in
  dict_get "doc_id" md = Some (MStr "d1") /\ "d1" <> EmptyString
  /\ map c_id b = ["d1-0"]
  /\ upsert_chunks Demo.enc Demo.chroma_valid_name "docs" b Demo.st0
     = (inr tt, snd (upsert_chunks Demo.enc Demo.chroma_valid_name "docs" b Demo.st0))
  /\ upsert_chunks Demo.enc Demo.chroma_valid_name "docs"
       (build_doc_chunks Demo.doc_text md 900 150 "u2")
       (snd (upsert_chunks Demo.enc Demo.chroma_valid_name "docs" b Demo.st0))
     = (inr tt, snd (upsert_chunks Demo.enc Demo.chroma_valid_name "docs" b Demo.st0)).
Proof.
  intros md b.
  assert (Hd : dict_get "doc_id" md = Some (MStr "d1")) by reflexivity.
  assert (Hne : "d1" <> EmptyString) by discriminate.
  assert (Hu : upsert_chunks Demo.enc Demo.chroma_valid_name "docs" b Demo.st0
               = (inr tt, snd (upsert_chunks Demo.enc Demo.chroma_valid_name "docs" b Demo.st0)))
    by (vm_compute; reflexivity).
  destruct (reingest_same_doc_id_idempotent Demo.enc Demo.chroma_valid_name Demo.doc_text md 900 150
              "d1" "u1" "u2" Hd Hne) as (Hids & _ & Hre).
  split; [exact Hd|]. split; [exact Hne|]. split.
  - unfold b. rewrite Hids. vm_compute. reflexivity.
  - split; [exact Hu|]. exact (Hre "docs" Demo.st0 _ Hu).
Defined.

(** ** Extraction dispatch of uploads *)

Import Files.

Lemma string_app_assoc (a b c : string) : (a ++ b) ++ c = a ++ b ++ c.
Proof. induction a as [|x r IH]; cbn; [reflexivity|now rewrite IH]. Qed.

Lemma string_length_app (a b : string) : String.length (a ++ b) = (String.length a + String.length b)%nat.
Proof. induction a as [|x r IH]; cbn; [reflexivity|now rewrite IH]. Qed.

Lemma string_app_nil_r (s : string) : s ++ EmptyString = s.
Proof. induction s as [|x r IH]; cbn; [reflexivity|now rewrite IH]. Qed.

Lemma substring_full (s : string) : substring 0 (String.length s) s = s.
Proof. induction s as [|x r IH]; cbn; [reflexivity|now rewrite IH]. Qed.

Lemma substring_app_right (a b : string) :
  substring (String.length a) (String.length b) (a ++ b) = b.
Proof. induction a as [|x r IH]; cbn; [apply substring_full|exact IH]. Qed.

Lemma string_last_split (a : string) :
  a <> EmptyString ->
  a = substring 0 (String.length a - 1) a ++ substring (String.length a - 1) 1 a.
Proof.
  induction a as [|x r IH]; [congruence|intros _].
  destruct r as [|y r'] eqn:Er; [reflexivity|].
  rewrite <- Er in *. assert (Hr : r <> EmptyString) by (subst; discriminate).
  cbn [String.length]. replace (S (String.length r) - 1)%nat with (S (String.length r - 1))
    by (subst; cbn; lia).
  cbn [substring append]. f_equal. now apply IH.
Qed.

(** [s] has no occurrence of the character [c]. *)
Definition no_char (c : ascii) (s : string) : Prop :=
  forallb (fun d => negb (Ascii.eqb c d)) (list_ascii_of_string s) = true.

Lemma no_char_app c a b : no_char c a -> no_char c b -> no_char c (a ++ b).
Proof.
  unfold no_char. induction a as [|x r IH]; cbn; [auto|].
  intros Ha Hb. apply andb_prop in Ha as [Hx Hr]. rewrite Hx. cbn. now apply IH.
Qed.

Lemma split_char_aux_none c cur t :
  no_char c t -> split_char_aux c cur t = [cur ++ t].
Proof.
  unfold no_char. revert cur. induction t as [|x r IH]; intros cur H; cbn in *.
  - now rewrite string_app_nil_r.
  - apply andb_prop in H as [Hx Hr]. apply negb_true_iff in Hx. rewrite Hx.
    rewrite IH by exact Hr. now rewrite string_app_assoc.
Qed.

Lemma split_char_aux_last c cur s t :
  no_char c t -> exists l, split_char_aux c cur (s ++ String c t) = (l ++ [t])%list.
Proof.
  revert cur. induction s as [|x r IH]; intros cur Ht; cbn.
  - rewrite Ascii.eqb_refl, split_char_aux_none by exact Ht. exists [cur]. reflexivity.
  - destruct (Ascii.eqb c x).
    + destruct (IH EmptyString Ht) as [l Hl]. rewrite Hl. exists (cur :: l). reflexivity.
    + apply IH. exact Ht.
Qed.

Lemma path_name_after_slash pre name :
  no_char "/" name -> name <> EmptyString -> name <> "." ->
  path_name (pre ++ String "/" name) = name.
Proof.
  intros Hs Hne Hdot. unfold path_name, split_char.
  destruct (split_char_aux_last "/" EmptyString pre name Hs) as [l ->].
  rewrite filter_app. cbn [filter].
  replace (negb (is_empty name || String.eqb name ".")) with true.
  - apply last_last.
  - destruct name; [congruence|]. cbn [is_empty orb].
    destruct (String.eqb_spec (String a name) "."); [congruence|reflexivity].
Qed.

Lemma path_name_plain name :
  no_char "/" name -> name <> EmptyString -> name <> "." -> path_name name = name.
Proof.
  intros Hs Hne Hdot. unfold path_name, split_char.
  rewrite split_char_aux_none by exact Hs. cbn.
  destruct name; [congruence|]. cbn [is_empty orb].
  destruct (String.eqb_spec (String a name) "."); [congruence|reflexivity].
Qed.

(** The temporary file keeps the name [tmp<rnd><suffix>] as its last path
    component. *)
Lemma path_name_tmp dir rnd suffix :
  no_char "/" rnd -> no_char "/" suffix ->
  path_name (tmp_file_name dir rnd suffix) = ("tmp" ++ rnd ++ suffix).
Proof.
  intros Hr Hs.
  assert (Hn : no_char "/" ("tmp" ++ rnd ++ suffix))
    by (apply no_char_app; [reflexivity|now apply no_char_app]).
  assert (Hne : ("tmp" ++ rnd ++ suffix) <> EmptyString) by discriminate.
  assert (Hd : ("tmp" ++ rnd ++ suffix) <> ".") by discriminate.
  unfold tmp_file_name, os_path_join.
  replace (prefix "/" ("tmp" ++ rnd ++ suffix)) with false by reflexivity.
  destruct (is_empty dir) eqn:Ee.
  - destruct dir; [|discriminate]. cbn [orb append]. exact (path_name_plain _ Hn Hne Hd).
  - destruct (String.eqb_spec (substring (String.length dir - 1) 1 dir) "/") as [E|E]; cbn [orb].
    + assert (Hdir : dir <> EmptyString) by (destruct dir; discriminate).
      rewrite (string_last_split dir Hdir), E, string_app_assoc.
      now apply path_name_after_slash.
    + exact (path_name_after_slash dir _ Hn Hne Hd).
Qed.

Lemma rfind_aux_app c a b i best :
  rfind_aux c (a ++ b) i best
  = rfind_aux c b (i + Z.of_nat (String.length a)) (rfind_aux c a i best).
Proof.
  revert i best. induction a as [|x r IH]; intros i best; cbn.
  - now rewrite Z.add_0_r.
  - rewrite IH. f_equal. lia.
Qed.

Lemma rfind_aux_none c s i best : no_char c s -> rfind_aux c s i best = best.
Proof.
  unfold no_char. revert i best. induction s as [|x r IH]; intros i best H; cbn in *; [reflexivity|].
  apply andb_prop in H as [Hx Hr]. apply negb_true_iff in Hx. rewrite Hx. now apply IH.
Qed.

(** With a suffix "." ++ [e] where [e] has neither dot nor slash and at
    least two characters, the temporary file's suffix is that suffix. *)
Lemma path_suffix_tmp dir rnd e :
  no_char "/" rnd -> no_char "." rnd -> no_char "/" e -> no_char "." e ->
  (2 <= String.length e)%nat ->
  path_suffix (tmp_file_name dir rnd (String "." e)) = String "." e.
Proof.
  intros Hr1 Hr2 He1 He2 Hlen.
  unfold path_suffix. rewrite path_name_tmp by (try exact Hr1; unfold no_char; cbn; exact He1).
  rewrite <- string_app_assoc.
  set (a := "tmp" ++ rnd).
  assert (Ha : no_char "." a) by (apply no_char_app; [reflexivity|exact Hr2]).
  unfold rfind. rewrite rfind_aux_app, (rfind_aux_none _ a _ _ Ha).
  cbn [rfind_aux]. rewrite Ascii.eqb_refl, (rfind_aux_none _ e _ _ He2).
  unfold len, slice. rewrite string_length_app. cbn [String.length].
  assert (Hpos : (0 < Z.of_nat (String.length a))%Z)
    by (unfold a; rewrite string_length_app; cbn; lia).
  replace ((0 <? 0 + Z.of_nat (String.length a))%Z) with true by (symmetry; apply Z.ltb_lt; lia).
  replace ((0 + Z.of_nat (String.length a) <?
            Z.of_nat (String.length a + S (String.length e)) - 1)%Z) with true
    by (symmetry; apply Z.ltb_lt; lia).
  cbn [andb].
  replace (Z.to_nat (0 + Z.of_nat (String.length a))) with (String.length a) by lia.
  replace (Z.to_nat (Z.of_nat (String.length a + S (String.length e)) - (0 + Z.of_nat (String.length a))))
    with (String.length (String "." e)) by (cbn [String.length]; lia).
  apply substring_app_right.
Qed.

Lemma tmp_name_char_safe d :
  tmp_name_char d = true -> Ascii.eqb "/" d = false /\ Ascii.eqb "." d = false.
Proof.
  unfold tmp_name_char. intros H. apply existsb_exists in H as (x & Hin & Hx).
  apply Ascii.eqb_eq in Hx. subst x. cbn in Hin.
  repeat (destruct Hin as [<-|Hin]; [split; reflexivity|]). destruct Hin.
Qed.

Lemma tmp_rnd_safe rnd :
  forallb tmp_name_char (list_ascii_of_string rnd) = true ->
  no_char "/" rnd /\ no_char "." rnd.
Proof.
  unfold no_char. induction rnd as [|x r IH]; cbn [list_ascii_of_string forallb]; [auto|].
  intros H. apply andb_prop in H as [Hx Hr].
  destruct (tmp_name_char_safe x Hx) as [-> ->]. cbn [negb andb]. now apply IH.
Qed.

Lemma validate_file_upload_ext filename size max_size ext :
  validate_file_upload filename size max_size = inr ext ->
  ext = snd (splitext (lower filename)) /\ In ext SUPPORTED_EXTENSIONS.
Proof.
  unfold validate_file_upload.
  destruct (is_empty filename); [discriminate|].
  destruct (_ || _); [discriminate|].
  destruct (existsb _ _) eqn:Ex; cbn [negb]; [|discriminate].
  destruct (_ =? 0)%Z; [discriminate|]. destruct (_ >? _)%Z; [discriminate|].
  intros H. injection H as <-. split; [reflexivity|].
  apply existsb_exists in Ex as (x & Hin & Hx). apply String.eqb_eq in Hx. now subst.
Qed.

(** X1.  Every upload that passes [validate_file_upload] is extracted by the
    reader of its validated (lowercased) extension: the temporary file's
    suffix is that extension, so .pdf goes to the PDF reader, .docx to the
    DOCX reader, .txt to the text reader, .md and .markdown to the Markdown
    reader; a .json upload, although accepted, makes extract_text_from_file
    raise, and the endpoint answers 500. *)
Theorem ingest_dispatch_by_extension :
  forall filename file_size max_file_size dir rnd ext,
    validate_file_upload filename file_size max_file_size = inr ext ->
    forallb tmp_name_char (list_ascii_of_string rnd) = true ->
    let r := ingest_reader filename file_size max_file_size dir rnd in
    (ext = ".pdf" /\ r = inr ReadPdf) \/ (ext = ".docx" /\ r = inr ReadDocx)
    \/ (ext = ".txt" /\ r = inr ReadTxt)
    \/ ((ext = ".md" \/ ext = ".markdown") /\ r = inr ReadMd)
    \/ (ext = ".json" /\ r = inl 500%Z).
Proof.
  intros filename file_size max_file_size dir rnd ext Hv Hrnd r.
  destruct (tmp_rnd_safe rnd Hrnd) as [Hr1 Hr2].
  destruct (validate_file_upload_ext _ _ _ _ Hv) as [Hext Hin].
  unfold r, ingest_reader. rewrite Hv, <- Hext.
  unfold extract_reader.
  cbn in Hin.
  repeat (destruct Hin as [<-|Hin];
    [rewrite path_suffix_tmp by (try exact Hr1; try exact Hr2; try reflexivity; cbn; lia);
     cbn; tauto|]).
  destruct Hin.
Qed.

Lemma ingest_dispatch_by_extension_witness :
  validate_file_upload "Notes.JSON" 1200 52428800 = inr ".json"
  /\ forallb tmp_name_char (list_ascii_of_string "k3x_9qa0") = true
  /\ ingest_reader "Notes.JSON" 1200 52428800 "/tmp" "k3x_9qa0" = inl 500%Z.
Proof.
  assert (Hv : validate_file_upload "Notes.JSON" 1200 52428800 = inr ".json") by reflexivity.
  assert (Hr : forallb tmp_name_char (list_ascii_of_string "k3x_9qa0") = true) by reflexivity.
  split; [exact Hv|]. split; [exact Hr|].
  destruct (ingest_dispatch_by_extension _ _ _ "/tmp" _ _ Hv Hr)
    as [[H _]|[[H _]|[[H _]|[[[H|H] _]|[_ H]]]]]; try discriminate; exact H.
Defined.

(** ** The chunker without overlap *)

Local Close Scope string_scope.

(** Total length of the sentences of a chunk, the join spaces not counted. *)
Definition sum_len (g : list string) : Z := fold_right (fun s acc => len s + acc) 0 g.

Lemma sum_len_app g h : sum_len (g ++ h) = sum_len g + sum_len h.
Proof. unfold sum_len. induction g as [|x r IH]; cbn [fold_right app]; [lia|]. rewrite IH. lia. Qed.

(** A chunk is non-empty, and when it has several sentences their total
    length is at most [chunk_size]. *)
Definition group_ok (chunk_size : Z) (g : list string) : Prop :=
  g <> [] /\ ((2 <= length g)%nat -> sum_len g <= chunk_size).

Lemma chunk_loop_no_overlap chunk_size sentences :
  forall groups cur chunks' cur',
    ((length cur <= 1)%nat \/ sum_len cur <= chunk_size) ->
    Forall (group_ok chunk_size) groups ->
    chunk_loop chunk_size 0 sentences (map (join " ") groups) cur (sum_len cur) = (chunks', cur') ->
    exists groups',
      chunks' = map (join " ") groups'
      /\ concat groups' ++ cur' = concat groups ++ cur ++ sentences
      /\ Forall (group_ok chunk_size) groups'
      /\ (cur <> [] \/ sentences <> [] -> cur' <> [])
      /\ ((length cur' <= 1)%nat \/ sum_len cur' <= chunk_size).
Proof.
  induction sentences as [|s rest IH]; intros groups cur chunks' cur' Hcur Hg H.
  - cbn in H. injection H as <- <-. exists groups.
    rewrite app_nil_r. repeat split; auto. intros [H|H]; [exact H|congruence].
  - cbn [chunk_loop] in H.
    destruct ((sum_len cur + len s >? chunk_size) && negb (match cur with [] => true | _ => false end))
      eqn:Ec.
    + apply andb_prop in Ec as [Ec1 Ec2].
      destruct cur as [|x xs]; [discriminate|]. clear Ec2.
      cbn [Z.eqb is_empty] in H.
      replace (len (join " " [s])) with (sum_len [s]) in H by (cbn; unfold len; lia).
      replace (map (join " ") groups ++ [join " " (x :: xs)])
        with (map (join " ") (groups ++ [x :: xs])) in H by (rewrite map_app; reflexivity).
      destruct (IH (groups ++ [x :: xs]) [s] chunks' cur') as (g' & E1 & E2 & E3 & E4 & E5).
      * left. cbn. lia.
      * apply Forall_app. split; [exact Hg|]. constructor; [|constructor].
        split; [discriminate|]. intros H2. destruct Hcur as [Hl|Hs]; [lia|exact Hs].
      * exact H.
      * exists g'. repeat split; auto.
        -- rewrite E2, concat_app. cbn. now rewrite app_nil_r, <- !app_assoc.
        -- intros _. apply E4. left. discriminate.
    + replace (sum_len cur + len s) with (sum_len (cur ++ [s])) in H
        by (rewrite sum_len_app; cbn; lia).
      destruct (IH groups (cur ++ [s]) chunks' cur') as (g' & E1 & E2 & E3 & E4 & E5).
      * destruct cur as [|x xs]; [left; cbn; lia|].
        right. apply andb_false_iff in Ec as [Ec|Ec]; [|discriminate].
        rewrite sum_len_app. rewrite Z.gtb_ltb in Ec. apply Z.ltb_ge in Ec.
        replace (sum_len [s]) with (len s) by (unfold sum_len; cbn [fold_right]; lia). lia.
      * exact Hg.
      * exact H.
      * exists g'. repeat split; auto.
        -- rewrite E2. now rewrite <- app_assoc.
        -- intros _. apply E4. left. destruct cur; discriminate.
Qed.

Lemma split_sentences_aux_nonempty pp skip acc s : split_sentences_aux pp skip acc s <> [].
Proof.
  revert pp skip acc. induction s as [|c r IH]; intros pp skip acc; cbn; [discriminate|].
  destruct (skip && is_space c); [apply IH|].
  destruct (pp && is_space c); [discriminate|apply IH].
Qed.

(** X2.  With [overlap = 0] the chunker neither loses nor repeats a
    sentence: the accumulated chunks are the space-joined groups of a
    partition of the sentence list, in order, and a chunk made of two or
    more sentences has at most [chunk_size] characters of sentence text
    (only the joining spaces can take it past [chunk_size]); a chunk of one
    sentence may be of any length. *)
Theorem chunk_no_overlap_partition :
  forall text chunk_size,
    exists groups,
      accumulated text chunk_size 0 = map (join " ") groups
      /\ concat groups = split_sentences (strip text)
      /\ Forall (group_ok chunk_size) groups.
Proof.
  intros text chunk_size. unfold accumulated.
  destruct (chunk_loop chunk_size 0 (split_sentences (strip text)) [] [] 0) as [chunks' cur'] eqn:E.
  destruct (chunk_loop_no_overlap chunk_size (split_sentences (strip text)) [] [] chunks' cur')
    as (g' & E1 & E2 & E3 & E4 & E5).
  - left. cbn. lia.
  - constructor.
  - exact E.
  - assert (Hne : cur' <> []) by (apply E4; right; apply split_sentences_aux_nonempty).
    destruct cur' as [|x xs]; [congruence|].
    exists (g' ++ [x :: xs]). repeat split.
    + rewrite map_app, E1. reflexivity.
    + rewrite concat_app. cbn [concat]. rewrite app_nil_r, E2. reflexivity.
    + apply Forall_app. split; [exact E3|]. constructor; [|constructor].
      split; [discriminate|]. intros H2. destruct E5 as [Hl|Hs]; [lia|exact Hs].
Qed.

(** ** Chunk records *)

Local Open Scope string_scope.

Lemma nth_error_enumerate {A} (l : list A) : forall n i,
  nth_error (enumerate n l) i = option_map (fun x => ((n + i)%nat, x)) (nth_error l i).
Proof.
  induction l as [|x r IH]; intros n i; [destruct i; reflexivity|].
  destruct i as [|i]; cbn.
  - now rewrite Nat.add_0_r.
  - rewrite IH. now rewrite Nat.add_succ_r.
Qed.

Lemma length_enumerate {A} (l : list A) : forall n, length (enumerate n l) = length l.
Proof. induction l as [|x r IH]; intros n; cbn; [reflexivity|now rewrite IH]. Qed.

Lemma string_of_uint_no_dash u : no_char "-" (NilEmpty.string_of_uint u).
Proof. unfold no_char. induction u; cbn; auto. Qed.

Lemma py_str_int_nat_no_dash i : no_char "-" (py_str_int (Z.of_nat i)).
Proof.
  unfold py_str_int. destruct (Z.of_nat i) as [|p|p] eqn:E; [reflexivity| |lia].
  cbn [Z.to_int NilZero.string_of_int]. unfold NilZero.string_of_uint.
  destruct (Pos.to_uint p); try apply string_of_uint_no_dash; reflexivity.
Qed.

Lemma py_str_int_inj a b : py_str_int a = py_str_int b -> a = b.
Proof.
  intros H. unfold py_str_int in H.
  assert (Hn : forall z, Z.to_int z <> Decimal.Pos Decimal.Nil
                         /\ Z.to_int z <> Decimal.Neg Decimal.Nil).
  { intros z. split; intros E; pose proof (DecimalZ.of_to z) as Hz; rewrite E in Hz;
      cbn in Hz; subst z; discriminate E. }
  destruct (Hn a) as [Ha1 Ha2]. destruct (Hn b) as [Hb1 Hb2].
  pose proof (NilZero.isi _ Ha1 Ha2) as Ea. pose proof (NilZero.isi _ Hb1 Hb2) as Eb.
  rewrite H, Eb in Ea. injection Ea as Ea. now apply DecimalZ.to_int_inj.
Qed.

Lemma no_char_dash_mid r x : ~ no_char "-" (r ++ String "-" x).
Proof.
  unfold no_char. induction r as [|c r IH]; cbn; [discriminate|].
  intros H. apply andb_prop in H as [_ H]. exact (IH H).
Qed.

(** A string ["{d}-{x}"] whose [x] holds no dash determines [d] and [x]. *)
Lemma dash_split_unique d1 x1 d2 x2 :
  no_char "-" x1 -> no_char "-" x2 ->
  (d1 ++ "-" ++ x1 = d2 ++ "-" ++ x2)%string -> d1 = d2 /\ x1 = x2.
Proof.
  intros H1 H2. revert d2. induction d1 as [|c1 r1 IH]; intros [|c2 r2] E; cbn in E.
  - injection E as E. auto.
  - injection E as _ E. subst x1. exact (False_ind _ (no_char_dash_mid _ _ H1)).
  - injection E as _ E. subst x2. exact (False_ind _ (no_char_dash_mid _ _ H2)).
  - injection E as <- E. destruct (IH _ E) as [-> ->]. auto.
Qed.

Lemma build_doc_chunks_ids text md chunk_size overlap fresh :
  map c_id (build_doc_chunks text md chunk_size overlap fresh)
  = map (fun i => (doc_id_of md fresh ++ "-" ++ py_str_int (Z.of_nat i))%string)
        (seq 0 (length (chunk_text text chunk_size overlap))).
Proof.
  unfold build_doc_chunks. rewrite map_map.
  generalize 0%nat. induction (chunk_text text chunk_size overlap) as [|ch l IH];
    intros n; [reflexivity|]. cbn. f_equal. apply IH.
Qed.

Lemma NoDup_map_injective {A B} (f : A -> B) (l : list A) :
  (forall x y, f x = f y -> x = y) -> NoDup l -> NoDup (map f l).
Proof.
  intros Hf Hl. induction Hl as [|x l Hx Hl IH]; cbn; constructor; auto.
  intros Hin. apply in_map_iff in Hin as (y & Ey & Hy). apply Hf in Ey. congruence.
Qed.

(** X3.  The chunk ids [build_doc_chunks] makes, ["{doc_id}-{i}"], are
    pairwise distinct, so one upsert never carries the same id twice; and
    two documents with different doc ids never share a chunk id, whatever
    their texts and chunking parameters, so upserting one never overwrites
    a vector of the other. *)
Theorem build_doc_chunks_ids_distinct :
  (forall text md chunk_size overlap fresh,
      NoDup (map c_id (build_doc_chunks text md chunk_size overlap fresh)))
  /\ (forall text1 md1 cs1 ov1 fresh1 text2 md2 cs2 ov2 fresh2 c1 c2,
        doc_id_of md1 fresh1 <> doc_id_of md2 fresh2 ->
        In c1 (build_doc_chunks text1 md1 cs1 ov1 fresh1) ->
        In c2 (build_doc_chunks text2 md2 cs2 ov2 fresh2) ->
        c_id c1 <> c_id c2).
Proof.
  split.
  - intros text md cs ov fresh. rewrite build_doc_chunks_ids.
    apply NoDup_map_injective; [|apply seq_NoDup].
    intros i j E.
    destruct (dash_split_unique _ _ _ _ (py_str_int_nat_no_dash i)
                (py_str_int_nat_no_dash j) E) as [_ Eij].
    apply py_str_int_inj in Eij. lia.
  - intros text1 md1 cs1 ov1 fresh1 text2 md2 cs2 ov2 fresh2 c1 c2 Hd H1 H2 E.
    apply (in_map c_id) in H1, H2. rewrite build_doc_chunks_ids in H1, H2.
    apply in_map_iff in H1 as (i & E1 & _). apply in_map_iff in H2 as (j & E2 & _).
    rewrite <- E1, <- E2 in E.
    destruct (dash_split_unique _ _ _ _ (py_str_int_nat_no_dash i)
                (py_str_int_nat_no_dash j) E) as [Ed _].
    exact (Hd Ed).
Qed.

Lemma build_doc_chunks_ids_distinct_witness :
  exists c1 c2,
    In c1 (build_doc_chunks Demo.doc_text [("doc_id", MStr "a-1")] 900 150 "u")
    /\ In c2 (build_doc_chunks Demo.doc_text [("doc_id", MStr "a")] 900 150 "v")
    /\ c_id c1 <> c_id c2.
Proof.
  set (b1 := build_doc_chunks Demo.doc_text [("doc_id", MStr "a-1")] 900 150 "u").
  set (b2 := build_doc_chunks Demo.doc_text [("doc_id", MStr "a")] 900 150 "v").
  assert (E1 : b1 = [mk_chunk "a-1-0" Demo.doc_text
                      [("doc_id", MStr "a-1"); ("chunk", MInt 0)]])
    by (vm_compute; reflexivity).
  assert (E2 : b2 = [mk_chunk "a-0" Demo.doc_text
                      [("doc_id", MStr "a"); ("chunk", MInt 0)]])
    by (vm_compute; reflexivity).
  assert (H1 : In (mk_chunk "a-1-0" Demo.doc_text [("doc_id", MStr "a-1"); ("chunk", MInt 0)]) b1)
    by (rewrite E1; now left).
  assert (H2 : In (mk_chunk "a-0" Demo.doc_text [("doc_id", MStr "a"); ("chunk", MInt 0)]) b2)
    by (rewrite E2; now left).
  assert (Hd : doc_id_of [("doc_id", MStr "a-1")] "u" <> doc_id_of [("doc_id", MStr "a")] "v")
    by (vm_compute; discriminate).
  exists (mk_chunk "a-1-0" Demo.doc_text [("doc_id", MStr "a-1"); ("chunk", MInt 0)]),
         (mk_chunk "a-0" Demo.doc_text [("doc_id", MStr "a"); ("chunk", MInt 0)]).
  split; [exact H1|]. split; [exact H2|].
  exact (proj2 build_doc_chunks_ids_distinct _ _ _ _ _ _ _ _ _ _ _ _ Hd H1 H2).
Defined.

(** ** Upserting and deleting chunks *)

Lemma upsert_one_in x e c : In x (upsert_one e c) -> x = e \/ In x c.
Proof.
  induction c as [|e' r IH]; cbn; [intros [H|[]]; auto|].
  destruct (String.eqb (e_id e) (e_id e')); cbn.
  - intros [H|H]; auto.
  - intros [H|H]; auto. destruct (IH H); auto.
Qed.

Lemma map_id_upsert_one e c :
  map e_id (upsert_one e c)
  = if existsb (String.eqb (e_id e)) (map e_id c) then map e_id c else (map e_id c ++ [e_id e])%list.
Proof.
  induction c as [|e' r IH]; cbn; [reflexivity|].
  destruct (String.eqb (e_id e) (e_id e')) eqn:E; cbn.
  - apply String.eqb_eq in E. now rewrite E.
  - rewrite IH. destruct (existsb _ _); reflexivity.
Qed.

Lemma upsert_one_nodup e c : NoDup (map e_id c) -> NoDup (map e_id (upsert_one e c)).
Proof.
  intros H. rewrite map_id_upsert_one. destruct (existsb _ _) eqn:E; [exact H|].
  apply NoDup_app; [exact H|constructor; [intros []|constructor]|].
  intros a Ha [<-|[]].
  assert (existsb (String.eqb (e_id e)) (map e_id c) = true)
    by (apply existsb_exists; exists (e_id e); split; [exact Ha|apply String.eqb_refl]).
  congruence.
Qed.

Lemma fold_upsert_nodup es c :
  NoDup (map e_id c) -> NoDup (map e_id (fold_left (fun c e => upsert_one e c) es c)).
Proof.
  revert c. induction es as [|e r IH]; intros c H; cbn [fold_left]; [exact H|].
  apply IH. now apply upsert_one_nodup.
Qed.

Lemma count_upsert_one (p : entry -> bool) e c :
  p e = true -> (forall x, In x c -> e_id x = e_id e -> p x = false) ->
  length (filter p (upsert_one e c)) = S (length (filter p c)).
Proof.
  intros Hp. induction c as [|e' r IH]; intros Hc; cbn; [now rewrite Hp|].
  destruct (String.eqb (e_id e) (e_id e')) eqn:E.
  - apply String.eqb_eq in E.
    rewrite (Hc e' (or_introl eq_refl) (eq_sym E)). cbn. now rewrite Hp.
  - cbn. destruct (p e'); cbn; rewrite IH; auto; intros x Hx; apply Hc; now right.
Qed.

Lemma count_fold_upsert (p : entry -> bool) es c :
  NoDup (map e_id es) -> (forall e, In e es -> p e = true) ->
  (forall e x, In e es -> In x c -> e_id x = e_id e -> p x = false) ->
  length (filter p (fold_left (fun c e => upsert_one e c) es c))
  = (length es + length (filter p c))%nat.
Proof.
  revert c. induction es as [|e r IH]; intros c Hnd Hp Hc; cbn [fold_left length]; [reflexivity|].
  cbn in Hnd. inversion Hnd as [|y ys Hy Hnd' Heq]; subst.
  rewrite IH.
  - rewrite count_upsert_one; [lia|apply Hp; now left|].
    intros x Hx Hid. apply (Hc e x); auto. now left.
  - exact Hnd'.
  - intros e' He'. apply Hp. now right.
  - intros e' x He' Hx Hid. destruct (upsert_one_in _ _ _ Hx) as [->|Hx'].
    + exfalso. apply Hy. rewrite Hid. now apply in_map.
    + apply (Hc e' x); auto. now right.
Qed.

(** The effect of an [upsert_chunks] call that returns, on a non-empty
    batch. *)
Lemma upsert_chunks_effect encode valid_name namespace chunks st st1 :
  upsert_chunks encode valid_name namespace chunks st = (inr tt, st1) -> chunks <> [] ->
  exists s1 c,
    get_collection valid_name namespace st = (inr tt, s1)
    /\ dict_get namespace (st_client s1) = Some c
    /\ NoDup (map e_id (map (fun c => mk_entry (c_id c) (encode (c_text c)) (c_meta c) (c_text c)) chunks))
    /\ st1 = set_client
               (dict_set namespace
                  (fold_left (fun c e => upsert_one e c)
                     (map (fun c => mk_entry (c_id c) (encode (c_text c)) (c_meta c) (c_text c)) chunks) c)
                  (st_client s1)) s1.
Proof.
  intros H Hne. destruct chunks as [|ch r]; [congruence|]. cbn [upsert_chunks] in H.
  set (es := map (fun c => mk_entry (c_id c) (encode (c_text c)) (c_meta c) (c_text c)) (ch :: r)) in *.
  destruct (get_collection valid_name namespace st) as [[e|[]] s1] eqn:E1.
  { rewrite (bind_inl _ _ _ _ _ E1) in H. discriminate. }
  rewrite (bind_inr _ _ _ _ _ E1) in H.
  destruct (get_model s1) as [[e|[]] s2] eqn:E2.
  { rewrite (bind_inl _ _ _ _ _ E2) in H. discriminate. }
  rewrite (bind_inr _ _ _ _ _ E2) in H.
  unfold get_model in E2. destruct (st_model_ok s1); [|discriminate]. injection E2 as <-.
  unfold col_upsert in H.
  destruct (col_fetch namespace s1) as [[e|c] s3] eqn:E3.
  { rewrite (bind_inl _ _ _ _ _ E3) in H. discriminate. }
  rewrite (bind_inr _ _ _ _ _ E3) in H.
  destruct (col_fetch_inv _ _ _ _ E3) as (-> & _ & Ec).
  destruct (nodupb (map e_id es)) eqn:En; [|discriminate].
  unfold col_store, bind, get, put in H. injection H as <-.
  exists s1, c. repeat split; auto. now apply nodupb_NoDup.
Qed.

(** X4.  After [upsert_chunks namespace chunks] returns, looking up the id
    of any chunk of the batch in the namespace's collection gives that
    chunk's vector (its id, the embedding of its text, its metadata and its
    text), every other id gives what it gave before (nothing when the
    namespace had no collection), and the other namespaces are unchanged. *)
Theorem upsert_chunks_lookup :
  forall encode valid_name namespace chunks st st1,
    upsert_chunks encode valid_name namespace chunks st = (inr tt, st1) ->
    (forall ch, In ch chunks ->
       exists c', dict_get namespace (st_client st1) = Some c'
                  /\ find_id (c_id ch) c'
                     = Some (mk_entry (c_id ch) (encode (c_text ch)) (c_meta ch) (c_text ch)))
    /\ (forall i c', ~ In i (map c_id chunks) ->
          dict_get namespace (st_client st1) = Some c' ->
          find_id i c' = match dict_get namespace (st_client st) with
                         | Some c => find_id i c | None => None end)
    /\ (forall other, other <> namespace ->
          dict_get other (st_client st1) = dict_get other (st_client st)).
Proof.
  intros encode valid_name namespace chunks st st1 H.
  destruct chunks as [|ch0 r0] eqn:Ech.
  { cbn in H. injection H as <-. repeat split.
    - intros ch [].
    - intros i c' _ ->. reflexivity. }
  rewrite <- Ech in H.
  destruct (upsert_chunks_effect _ _ _ _ _ _ H ltac:(subst; discriminate))
    as (s1 & c & E1 & Ec & Hnd & ->).
  rewrite <- Ech in *.
  destruct (get_collection_spec _ _ _ _ _ E1) as (_ & _ & _ & Hnew & Hframe & Hsame).
  cbn [st_client set_client]. repeat split.
  - intros ch Hin. eexists. rewrite dict_get_set, String.eqb_refl. split; [reflexivity|].
    set (e := mk_entry (c_id ch) (encode (c_text ch)) (c_meta ch) (c_text ch)).
    change (c_id ch) with (e_id e). apply find_id_fold_mem; [exact Hnd|].
    apply in_map_iff. exists ch. auto.
  - intros i c' Hi Hc'. rewrite dict_get_set, String.eqb_refl in Hc'. injection Hc' as <-.
    rewrite find_id_fold_other.
    + destruct (dict_get namespace (st_client st)) as [c0|] eqn:Eg.
      * rewrite Hsame in Ec by congruence. congruence.
      * destruct (Hnew c Ec) as [H' | ->]; [congruence|reflexivity].
    + rewrite map_map. exact Hi.
  - intros other Hne. rewrite dict_get_set.
    destruct (String.eqb_spec other namespace); [congruence|]. now apply Hframe.
Qed.

Lemma upsert_chunks_lookup_witness :
  upsert_chunks Demo.enc Demo.chroma_valid_name "docs" [Demo.chunk_d1] Demo.st0
    = (inr tt, snd (upsert_chunks Demo.enc Demo.chroma_valid_name "docs" [Demo.chunk_d1] Demo.st0))
  /\ exists c',
       dict_get "docs" (st_client (snd (upsert_chunks Demo.enc Demo.chroma_valid_name "docs"
                                         [Demo.chunk_d1] Demo.st0))) = Some c'
       /\ find_id "d1-0" c'
          = Some (mk_entry "d1-0" (Demo.enc "Alpha beta gamma.")
                   [("doc_id", MStr "d1"); ("chunk", MInt 0)] "Alpha beta gamma.").
Proof.
  assert (Hu : upsert_chunks Demo.enc Demo.chroma_valid_name "docs" [Demo.chunk_d1] Demo.st0
    = (inr tt, snd (upsert_chunks Demo.enc Demo.chroma_valid_name "docs" [Demo.chunk_d1] Demo.st0)))
    by (vm_compute; reflexivity).
  split; [exact Hu|].
  destruct (upsert_chunks_lookup _ _ _ _ _ _ Hu) as [H _].
  exact (H Demo.chunk_d1 (or_introl eq_refl)).
Defined.

Lemma upsert_chunks_ids_unique encode valid_name namespace chunks st st1 :
  coll_ids_unique st ->
  upsert_chunks encode valid_name namespace chunks st = (inr tt, st1) ->
  coll_ids_unique st1.
Proof.
  intros Hu H. destruct chunks as [|ch r] eqn:Ech.
  { cbn in H. injection H as <-. exact Hu. }
  rewrite <- Ech in H.
  destruct (upsert_chunks_effect _ _ _ _ _ _ H ltac:(subst; discriminate))
    as (s1 & c & E1 & Ec & Hnd & ->).
  destruct (get_collection_spec _ _ _ _ _ E1) as (_ & _ & _ & Hnew & Hframe & _).
  intros n c' Hc'. cbn [st_client set_client] in Hc'. rewrite dict_get_set in Hc'.
  destruct (String.eqb_spec n namespace) as [->|Hn].
  - injection Hc' as <-. apply fold_upsert_nodup.
    destruct (Hnew c Ec) as [Hc | ->]; [exact (Hu _ _ Hc)|constructor].
  - rewrite Hframe in Hc' by exact Hn. exact (Hu _ _ Hc').
Qed.

Lemma filter_all_false {A} (p : A -> bool) l :
  (forall x, In x l -> p x = false) -> filter p l = [].
Proof.
  induction l as [|x r IH]; intros H; cbn; [reflexivity|].
  rewrite (H x (or_introl eq_refl)). apply IH. intros y Hy. apply H. now right.
Qed.

Lemma build_doc_chunks_doc_id text md chunk_size overlap fresh d ch :
  dict_get "doc_id" md = Some (MStr d) ->
  In ch (build_doc_chunks text md chunk_size overlap fresh) ->
  dict_get "doc_id" (c_meta ch) = Some (MStr d).
Proof.
  intros Hd Hin. unfold build_doc_chunks in Hin. apply in_map_iff in Hin as ([i t] & <- & _).
  cbn [c_meta]. rewrite dict_get_set. exact Hd.
Qed.

(** X5.  Ingesting a document whose metadata carries [doc_id = d] into a
    namespace where no vector belongs to [d] yet, then deleting document
    [d] from it, deletes exactly as many vectors as the ingest produced
    chunks, leaves no vector of [d] in the namespace, and leaves every
    other namespace as it was before the ingest. *)
Theorem ingest_then_delete_document :
  forall encode valid_name namespace text md chunk_size overlap fresh d st st1 n st2,
    coll_ids_unique st ->
    dict_get "doc_id" md = Some (MStr d) ->
    (forall c e, dict_get namespace (st_client st) = Some c -> In e c ->
                 doc_matches d e = false) ->
    upsert_chunks encode valid_name namespace
      (build_doc_chunks text md chunk_size overlap fresh) st = (inr tt, st1) ->
    delete_document valid_name namespace d st1 = (inr n, st2) ->
    n = Z.of_nat (length (build_doc_chunks text md chunk_size overlap fresh))
    /\ (forall c e, dict_get namespace (st_client st2) = Some c -> In e c ->
                    doc_matches d e = false)
    /\ (forall other, other <> namespace ->
          dict_get other (st_client st2) = dict_get other (st_client st)).
Proof.
  intros encode valid_name namespace text md chunk_size overlap fresh d st st1 n st2
    Hu Hd Hnone Hup Hdel.
  pose proof (upsert_chunks_ids_unique _ _ _ _ _ _ Hu Hup) as Hu1.
  destruct (delete_document_effect _ _ _ _ _ _ Hu1 Hdel)
    as (c1 & Hc1 & Ec1 & -> & Hframe2 & _ & _).
  set (chunks := build_doc_chunks text md chunk_size overlap fresh) in *.
  assert (Hafter : forall c e, dict_get namespace (st_client st2) = Some c -> In e c ->
                               doc_matches d e = false).
  { intros c e Hc He. rewrite Ec1 in Hc. injection Hc as <-.
    apply filter_In in He as [_ He]. now apply negb_true_iff in He. }
  destruct chunks as [|ch r] eqn:Ech.
  - cbn in Hup. injection Hup as <-.
    split; [|split; [exact Hafter|exact Hframe2]].
    cbn [length]. f_equal.
    destruct Hc1 as [Hc1 | [_ ->]]; [|reflexivity].
    rewrite filter_all_false; [reflexivity|]. intros e He. exact (Hnone _ _ Hc1 He).
  - rewrite <- Ech in Hup.
    destruct (upsert_chunks_effect _ _ _ _ _ _ Hup ltac:(rewrite Ech; discriminate))
      as (s1 & c & E1 & Ec & Hnd & ->).
    destruct (get_collection_spec _ _ _ _ _ E1) as (_ & _ & _ & Hnew & Hframe1 & _).
    cbn [st_client set_client] in Hc1, Hframe2.
    rewrite dict_get_set, String.eqb_refl in Hc1.
    destruct Hc1 as [Hc1 | [Hc1 _]]; [|discriminate]. injection Hc1 as <-.
    split; [|split; [exact Hafter|]].
    + assert (Hz : filter (doc_matches d) c = []).
      { apply filter_all_false. intros e He.
        destruct (Hnew c Ec) as [Hc | ->]; [exact (Hnone _ _ Hc He)|destruct He]. }
      rewrite count_fold_upsert, Hz, length_map; [rewrite Ech; cbn [length]; lia|exact Hnd| |].
      * intros e He. apply in_map_iff in He as (ch' & <- & Hch').
        unfold doc_matches. cbn [e_meta].
        rewrite (build_doc_chunks_doc_id text md chunk_size overlap fresh d ch' Hd)
          by exact Hch'.
        apply String.eqb_refl.
      * intros e x _ Hx _.
        destruct (Hnew c Ec) as [Hc | ->]; [exact (Hnone _ _ Hc Hx)|destruct Hx].
    + intros other Hne. rewrite Hframe2 by exact Hne. cbn [st_client set_client].
      rewrite dict_get_set. destruct (String.eqb_spec other namespace); [congruence|].
      now apply Hframe1.
Qed.

Lemma st_docs_ids_unique : coll_ids_unique Demo.st_docs.
Proof.
  intros ns c H. cbn in H. destruct (String.eqb ns "docs"); [|discriminate].
  injection H as <-. cbn. constructor; [cbn; intros [H|[]]; discriminate|].
  constructor; [intros []|constructor].
Qed.

Lemma ingest_then_delete_document_witness :
  upsert_chunks Demo.enc Demo.chroma_valid_name "docs"
    (build_doc_chunks Demo.doc_text Demo.md_d3 900 150 "u") Demo.st_docs
  = (inr tt, snd (upsert_chunks Demo.enc Demo.chroma_valid_name "docs"
                    (build_doc_chunks Demo.doc_text Demo.md_d3 900 150 "u") Demo.st_docs))
  /\ 1%Z = Z.of_nat (length (build_doc_chunks Demo.doc_text Demo.md_d3 900 150 "u")).
Proof.
  assert (Hup : upsert_chunks Demo.enc Demo.chroma_valid_name "docs"
    (build_doc_chunks Demo.doc_text Demo.md_d3 900 150 "u") Demo.st_docs
    = (inr tt, snd (upsert_chunks Demo.enc Demo.chroma_valid_name "docs"
                    (build_doc_chunks Demo.doc_text Demo.md_d3 900 150 "u") Demo.st_docs)))
    by (vm_compute; reflexivity).
  assert (Hdel : delete_document Demo.chroma_valid_name "docs" "d3"
    (snd (upsert_chunks Demo.enc Demo.chroma_valid_name "docs"
            (build_doc_chunks Demo.doc_text Demo.md_d3 900 150 "u") Demo.st_docs))
    = (inr 1%Z, snd (delete_document Demo.chroma_valid_name "docs" "d3"
                      (snd (upsert_chunks Demo.enc Demo.chroma_valid_name "docs"
                              (build_doc_chunks Demo.doc_text Demo.md_d3 900 150 "u")
                              Demo.st_docs)))))
    by (vm_compute; reflexivity).
  assert (Hnone : forall c e, dict_get "docs" (st_client Demo.st_docs) = Some c -> In e c ->
                              doc_matches "d3" e = false).
  { intros c e Hc He. cbn in Hc. injection Hc as <-.
    destruct He as [<-|[<-|[]]]; reflexivity. }
  split; [exact Hup|].
  exact (proj1 (ingest_then_delete_document Demo.enc Demo.chroma_valid_name "docs" Demo.doc_text
                  Demo.md_d3 900 150 "u" "d3" Demo.st_docs _ 1%Z _
                  st_docs_ids_unique eq_refl Hnone Hup Hdel)).
Defined.

(** ** Namespace and document endpoints *)

Import Api.

Lemma listed_keys {V} (n : string) (d : list (string * V)) :
  listed n (map fst d) = match dict_get n d with Some _ => true | None => false end.
Proof.
  unfold listed. induction d as [|[k v] r IH]; cbn; [reflexivity|].
  destruct (String.eqb n k); [reflexivity|exact IH].
Qed.

(** X6.  [delete_namespace_endpoint] answers 400 for "default" and
    otherwise either deletes the namespace (its collection and its cached
    handle) and succeeds, when the storage is reachable and the collection
    exists, or answers 404 and changes nothing; it never answers 500. *)
Theorem delete_namespace_endpoint_outcome :
  forall namespace_name st,
    delete_namespace_endpoint namespace_name st =
    if String.eqb namespace_name "default" then (inr (inl 400%Z), st)
    else if st_io_ok st && match dict_get namespace_name (st_client st) with
                           | Some _ => true | None => false end
    then (inr (inr tt),
          set_handles (filter (fun n => negb (String.eqb namespace_name n)) (st_handles st))
                      (set_client (dict_del namespace_name (st_client st)) st))
    else (inr (inl 404%Z), st).
Proof.
  intros namespace_name st. unfold delete_namespace_endpoint.
  destruct (String.eqb namespace_name "default"); [reflexivity|].
  unfold bind at 1, list_collections.
  destruct (st_io_ok st) eqn:Eio; cbn [andb negb].
  - rewrite listed_keys.
    destruct (dict_get namespace_name (st_client st)) eqn:Eg; cbn [negb]; [|reflexivity].
    unfold try_except, bind. rewrite delete_namespace_effect, Eio, Eg. reflexivity.
  - reflexivity.
Qed.

Local Open Scope store_scope.

Lemma get_collection_io_down valid_name namespace st :
  st_io_ok st = false ->
  fst (get_collection valid_name namespace st) <> inr tt ->
  exists e, get_collection valid_name namespace st = (inl e, st).
Proof.
  intros Hio. unfold get_collection, try_except, client_get_collection,
    client_create_collection, storage_ok, bind, get, put, ret, raise.
  destruct (existsb (String.eqb namespace) (st_handles st)); cbn; [congruence|].
  rewrite Hio; cbn; rewrite Hio; cbn. intros _. eexists. reflexivity.
Qed.

Lemma fetch_after_get_collection_io_down {A} valid_name namespace (k : collection -> M A) st :
  st_io_ok st = false ->
  exists e, (get_collection valid_name namespace ;; c <- col_fetch namespace ;; k c) st
            = (inl e, st).
Proof.
  intros Hio.
  destruct (get_collection valid_name namespace st) as [[e|[]] s] eqn:E.
  - destruct (get_collection_io_down valid_name namespace st Hio) as [e' He'];
      [rewrite E; discriminate|].
    rewrite E in He'. injection He' as -> ->. exists e'. exact (bind_inl _ _ _ _ _ E).
  - rewrite (bind_inr _ _ _ _ _ E).
    assert (s = st).
    { revert E. unfold get_collection, try_except, client_get_collection,
        client_create_collection, storage_ok, bind, get, put, ret, raise.
      destruct (existsb (String.eqb namespace) (st_handles st)); cbn; [congruence|].
      rewrite Hio; cbn; rewrite Hio; cbn. discriminate. }
    subst s. exists StorageFailure.
    unfold bind at 1, col_fetch, bind at 1, storage_ok. now rewrite Hio.
Qed.

(** X7.  With the storage unreachable, [delete_document_endpoint] and
    [list_namespace_documents] leave the state unchanged and answer 404
    for every namespace but "default", for which they answer 500. *)
Theorem endpoints_storage_down :
  forall valid_name namespace_name doc_id st,
    st_io_ok st = false ->
    delete_document_endpoint valid_name namespace_name doc_id st
      = (inr (inl (if String.eqb namespace_name "default" then 500%Z else 404%Z)), st)
    /\ list_namespace_documents valid_name namespace_name st
      = (inr (inl (if String.eqb namespace_name "default" then 500%Z else 404%Z)), st).
Proof.
  intros valid_name namespace_name doc_id st Hio.
  unfold delete_document_endpoint, list_namespace_documents.
  split; unfold bind at 1, list_collections; rewrite Hio; cbn [listed existsb negb andb];
    destruct (String.eqb namespace_name "default"); cbn [negb]; try reflexivity.
  - unfold try_except at 1, delete_document, try_except at 1, bind at 1.
    match goal with
    | |- context [(bind (get_collection ?v ?n) (fun _ => bind (col_fetch ?n) ?k)) ?s] =>
        destruct (fetch_after_get_collection_io_down v n k s Hio) as [e He]; rewrite He
    end.
    reflexivity.
  - unfold try_except at 1.
    match goal with
    | |- context [(bind (get_collection ?v ?n) (fun _ => bind (col_fetch ?n) ?k)) ?s] =>
        destruct (fetch_after_get_collection_io_down v n k s Hio) as [e He]; rewrite He
    end.
    reflexivity.
Qed.

Lemma endpoints_storage_down_witness :
  st_io_ok (mk_state [("docs", [Demo.e_d1; Demo.e_d2])] ["docs"] [] true 100 false true) = false
  /\ delete_document_endpoint Demo.chroma_valid_name "docs" "d1"
       (mk_state [("docs", [Demo.e_d1; Demo.e_d2])] ["docs"] [] true 100 false true)
     = (inr (inl 404%Z),
        mk_state [("docs", [Demo.e_d1; Demo.e_d2])] ["docs"] [] true 100 false true).
Proof.
  split; [reflexivity|].
  exact (proj1 (endpoints_storage_down Demo.chroma_valid_name "docs" "d1"
                  (mk_state [("docs", [Demo.e_d1; Demo.e_d2])] ["docs"] [] true 100 false true)
                  eq_refl)).
Defined.

(** ** Invariants kept by the store's operations *)

(** [m] keeps [P]: from a state satisfying [P], [m] ends, returning or
    raising, in a state satisfying [P]. *)
Definition preserves {A} (P : state -> Prop) (m : M A) : Prop :=
  forall s r s', P s -> m s = (r, s') -> P s'.

(** [m] does not change the state. *)
Definition reads_only {A} (m : M A) : Prop :=
  forall s r s', m s = (r, s') -> s' = s.

Lemma reads_only_preserves {A} P (m : M A) : reads_only m -> preserves P m.
Proof. intros H s r s' Hs E. now rewrite (H _ _ _ E). Qed.

Lemma preserves_ret {A} P (a : A) : preserves P (ret a).
Proof. intros s r s' Hs E. unfold ret in E. congruence. Qed.

Lemma preserves_raise {A} P e : preserves P (raise (A := A) e).
Proof. intros s r s' Hs E. unfold raise in E. congruence. Qed.

Lemma preserves_bind {A B} P (m : M A) (f : A -> M B) :
  preserves P m -> (forall a, preserves P (f a)) -> preserves P (bind m f).
Proof.
  intros Hm Hf s r s' Hs E. unfold bind in E.
  destruct (m s) as [[e|a] s1] eqn:E1.
  - injection E as _ <-. exact (Hm _ _ _ Hs E1).
  - exact (Hf a _ _ _ (Hm _ _ _ Hs E1) E).
Qed.

Lemma preserves_try {A} P (m : M A) (h : exc -> M A) :
  preserves P m -> (forall e, preserves P (h e)) -> preserves P (try_except m h).
Proof.
  intros Hm Hh s r s' Hs E. unfold try_except in E.
  destruct (m s) as [[e|a] s1] eqn:E1.
  - exact (Hh e _ _ _ (Hm _ _ _ Hs E1) E).
  - injection E as _ <-. exact (Hm _ _ _ Hs E1).
Qed.

Lemma preserves_get_then {A} P (f : state -> M A) :
  (forall st, preserves P (f st)) -> preserves P (st <- get ;; f st).
Proof.
  intros Hf s r s' Hs E. unfold bind, get in E. exact (Hf s _ _ _ Hs E).
Qed.

Lemma reads_only_col_fetch namespace : reads_only (col_fetch namespace).
Proof.
  intros s [e|c] s' E.
  - revert E. unfold col_fetch, storage_ok, bind, get, ret, raise.
    destruct (st_io_ok s); [|congruence].
    destruct (dict_get namespace (st_client s)); congruence.
  - exact (proj1 (col_fetch_inv _ _ _ _ E)).
Qed.

Lemma reads_only_get_model : reads_only get_model.
Proof. intros s r s'. unfold get_model. destruct (st_model_ok s); congruence. Qed.

Lemma preserves_col_query P namespace q k : preserves P (col_query namespace q k).
Proof.
  unfold col_query. apply preserves_bind.
  - apply reads_only_preserves, reads_only_col_fetch.
  - intros c. destruct (k <=? 0)%Z; [apply preserves_raise|apply preserves_ret].
Qed.

(** *** The cache never outgrows [_cache_max_size] *)

Definition cache_bounded (st : state) : Prop :=
  (Z.of_nat (length (st_cache st)) <= st_cache_max st)%Z.

Lemma length_dict_set {V} (k : string) (v : V) (d : list (string * V)) :
  (length (dict_set k v d) <= S (length d))%nat.
Proof.
  induction d as [|[k' v'] r IH]; cbn; [lia|].
  destruct (String.eqb k k'); cbn; lia.
Qed.

Lemma preserves_cache_result key out : preserves cache_bounded (_cache_result key out).
Proof.
  intros s r s' Hs E. unfold cache_bounded in *.
  unfold _cache_result, bind, get, put, ret, raise in E.
  destruct (st_cache_on s); cbn [negb] in E; [|congruence].
  destruct (Z.of_nat (length (st_cache s)) >=? st_cache_max s)%Z eqn:Ec.
  - destruct (st_cache s) as [|x rest] eqn:Eq; [congruence|].
    injection E as _ <-. cbn. pose proof (length_dict_set key out rest).
    rewrite Z.geb_le in Ec. cbn [length] in Hs, Ec. lia.
  - injection E as _ <-. cbn. pose proof (length_dict_set key out (st_cache s)).
    rewrite Z.geb_leb in Ec. apply Z.leb_gt in Ec. lia.
Qed.

Lemma get_collection_cache_frame valid_name namespace st r st' :
  get_collection valid_name namespace st = (r, st') ->
  st_cache st' = st_cache st /\ st_cache_max st' = st_cache_max st.
Proof.
  intros H.
  unfold get_collection, try_except, client_get_collection, client_create_collection,
    storage_ok, bind, get, put, ret, raise in H.
  cbn -[dict_get existsb String.eqb] in H.
  split_match H.
  all: injection H as <- <-; cbn; auto.
Qed.

Lemma preserves_get_collection_cache valid_name namespace :
  preserves cache_bounded (get_collection valid_name namespace).
Proof.
  intros s r s' Hs E. destruct (get_collection_cache_frame _ _ _ _ _ E) as [Hc Hm].
  unfold cache_bounded in *. now rewrite Hc, Hm.
Qed.

Lemma preserves_col_store_cache namespace c : preserves cache_bounded (col_store namespace c).
Proof. intros s r s' Hs E. unfold col_store, bind, get, put in E. now injection E as _ <-. Qed.

(** X9.  If the query cache holds at most [_cache_max_size] entries, it
    still does after any call of [query], [upsert_chunks],
    [delete_document], [delete_namespace] or [clear_cache], whether the
    call returns or raises. *)
Theorem cache_stays_bounded :
  forall encode valid_name st,
    cache_bounded st ->
    (forall namespace query_text k use_cache r st',
       query encode valid_name namespace query_text k use_cache st = (r, st') ->
       cache_bounded st')
    /\ (forall namespace chunks r st',
          upsert_chunks encode valid_name namespace chunks st = (r, st') -> cache_bounded st')
    /\ (forall namespace doc_id r st',
          delete_document valid_name namespace doc_id st = (r, st') -> cache_bounded st')
    /\ (forall namespace r st', delete_namespace namespace st = (r, st') -> cache_bounded st')
    /\ (forall r st', clear_cache st = (r, st') -> cache_bounded st').
Proof.
  intros encode valid_name st Hs. repeat split.
  - intros namespace query_text k use_cache r st' E.
    enough (Hp : preserves cache_bounded (query encode valid_name namespace query_text k use_cache))
      by exact (Hp _ _ _ Hs E).
    unfold query. apply preserves_bind.
    + destruct use_cache; [|apply preserves_ret].
      unfold _get_cached_result. apply preserves_get_then. intros. apply preserves_ret.
    + intros [cached|]; [apply preserves_ret|].
      apply preserves_try; [|intros; apply preserves_ret].
      apply preserves_bind; [apply preserves_get_collection_cache|intros _].
      apply preserves_bind; [apply reads_only_preserves, reads_only_get_model|intros _].
      apply preserves_bind; [apply preserves_col_query|intros hits].
      apply preserves_bind; [|intros; apply preserves_ret].
      destruct use_cache; [apply preserves_cache_result|apply preserves_ret].
  - intros namespace chunks r st' E.
    enough (Hp : preserves cache_bounded (upsert_chunks encode valid_name namespace chunks))
      by exact (Hp _ _ _ Hs E).
    unfold upsert_chunks. destruct chunks; [apply preserves_ret|].
    apply preserves_bind; [apply preserves_get_collection_cache|intros _].
    apply preserves_bind; [apply reads_only_preserves, reads_only_get_model|intros _].
    unfold col_upsert. apply preserves_bind; [apply reads_only_preserves, reads_only_col_fetch|].
    intros cl. destruct (nodupb _); [apply preserves_col_store_cache|apply preserves_raise].
  - intros namespace doc_id r st' E.
    enough (Hp : preserves cache_bounded (delete_document valid_name namespace doc_id))
      by exact (Hp _ _ _ Hs E).
    unfold delete_document. apply preserves_try; [|intros; apply preserves_raise].
    apply preserves_bind; [apply preserves_get_collection_cache|intros _].
    apply preserves_bind; [apply reads_only_preserves, reads_only_col_fetch|intros all_docs].
    destruct (map e_id _); [apply preserves_ret|].
    apply preserves_bind; [|intros; apply preserves_ret].
    unfold col_delete.
    apply preserves_bind; [apply reads_only_preserves, reads_only_col_fetch|intros c].
    apply preserves_col_store_cache.
  - intros namespace r st' E. rewrite delete_namespace_effect in E. injection E as _ <-.
    destruct (_ && _); [exact Hs|exact Hs].
  - intros r st' E. unfold clear_cache, bind, get, put in E. injection E as _ <-.
    unfold cache_bounded in *. cbn. lia.
Qed.

Lemma cache_stays_bounded_witness :
  cache_bounded (mk_state [("docs", [Demo.e_d1; Demo.e_d2])] ["docs"] [("k", [])] true 1 true true)
  /\ cache_bounded (snd (query Demo.enc Demo.chroma_valid_name "docs" "beta" 1 true
       (mk_state [("docs", [Demo.e_d1; Demo.e_d2])] ["docs"] [("k", [])] true 1 true true))).
Proof.
  assert (Hs : cache_bounded
    (mk_state [("docs", [Demo.e_d1; Demo.e_d2])] ["docs"] [("k", [])] true 1 true true))
    by (unfold cache_bounded; cbn; lia).
  split; [exact Hs|].
  destruct (cache_stays_bounded Demo.enc Demo.chroma_valid_name _ Hs) as [Hq _].
  apply (Hq "docs" "beta" 1%Z true
           (fst (query Demo.enc Demo.chroma_valid_name "docs" "beta" 1 true
              (mk_state [("docs", [Demo.e_d1; Demo.e_d2])] ["docs"] [("k", [])] true 1 true true)))).
  apply surjective_pairing.
Defined.

(** *** Every cached handle names a stored collection *)

Lemma preserves_get_collection_handles valid_name namespace :
  preserves handles_valid (get_collection valid_name namespace).
Proof.
  intros s r s' Hs H.
  unfold get_collection, try_except, client_get_collection, client_create_collection,
    storage_ok, bind, get, put, ret, raise in H.
  cbn -[dict_get existsb String.eqb] in H.
  split_match H.
  all: injection H as <- <-; try exact Hs.
  all: intros n Hn; cbn -[dict_get String.eqb] in Hn |- *;
       apply in_app_or in Hn as [Hn|[<-|[]]]; try congruence.
  all: try (rewrite dict_get_app_fresh by eassumption).
  all: try rewrite String.eqb_refl; try discriminate.
  all: try exact (Hs n Hn).
  all: destruct (String.eqb n namespace); [discriminate|exact (Hs n Hn)].
Qed.

Lemma preserves_col_store_handles namespace c : preserves handles_valid (col_store namespace c).
Proof.
  intros s r s' Hs E. unfold col_store, bind, get, put in E. injection E as _ <-.
  intros n Hn. cbn. rewrite dict_get_set. destruct (String.eqb n namespace); [discriminate|].
  exact (Hs n Hn).
Qed.

Lemma preserves_delete_namespace_handles namespace :
  preserves handles_valid (delete_namespace namespace).
Proof.
  intros s r s' Hs E. rewrite delete_namespace_effect in E. injection E as _ <-.
  destruct (_ && _); [|exact Hs].
  intros n Hn. cbn in Hn |- *. apply filter_In in Hn as [Hn Hne].
  unfold dict_del. apply negb_true_iff in Hne. revert Hne.
  generalize (Hs n Hn). clear. induction (st_client s) as [|[k v] r IH]; cbn; [tauto|].
  intros Hg Hne. destruct (String.eqb n k) eqn:Ek.
  - apply String.eqb_eq in Ek. subst k. rewrite Hne. cbn.
    rewrite String.eqb_refl. discriminate.
  - destruct (String.eqb namespace k); cbn; [exact (IH Hg Hne)|]. rewrite Ek. exact (IH Hg Hne).
Qed.

Lemma preserves_cache_result_handles key out : preserves handles_valid (_cache_result key out).
Proof.
  intros s r s' Hs E. unfold _cache_result, bind, get, put, ret, raise in E.
  destruct (st_cache_on s); cbn [negb] in E; [|injection E as _ <-; exact Hs].
  destruct (_ >=? _)%Z.
  - destruct (st_cache s); injection E as _ <-; exact Hs.
  - injection E as _ <-. exact Hs.
Qed.

Lemma preserves_list_collections P : preserves P list_collections.
Proof.
  apply reads_only_preserves. intros s r s'. unfold list_collections.
  destruct (st_io_ok s); congruence.
Qed.

Lemma preserves_delete_document_handles valid_name namespace doc_id :
  preserves handles_valid (delete_document valid_name namespace doc_id).
Proof.
  unfold delete_document. apply preserves_try; [|intros; apply preserves_raise].
  apply preserves_bind; [apply preserves_get_collection_handles|intros _].
  apply preserves_bind; [apply reads_only_preserves, reads_only_col_fetch|intros all_docs].
  destruct (map e_id _); [apply preserves_ret|].
  apply preserves_bind; [|intros; apply preserves_ret].
  unfold col_delete.
  apply preserves_bind; [apply reads_only_preserves, reads_only_col_fetch|intros cl].
  apply preserves_col_store_handles.
Qed.

(** X8.  Every cached collection handle names a stored collection, and
    [query], [upsert_chunks], [delete_document], [delete_namespace],
    [clear_cache] and the endpoints [delete_namespace_endpoint],
    [delete_document_endpoint] and [list_namespace_documents] keep it so,
    whether they return or raise. *)
Theorem handles_stay_valid :
  forall encode valid_name,
    (forall namespace query_text k use_cache,
       preserves handles_valid (query encode valid_name namespace query_text k use_cache))
    /\ (forall namespace chunks,
          preserves handles_valid (upsert_chunks encode valid_name namespace chunks))
    /\ (forall namespace doc_id,
          preserves handles_valid (delete_document valid_name namespace doc_id))
    /\ (forall namespace, preserves handles_valid (delete_namespace namespace))
    /\ preserves handles_valid clear_cache
    /\ (forall namespace_name,
          preserves handles_valid (delete_namespace_endpoint namespace_name))
    /\ (forall namespace_name doc_id,
          preserves handles_valid (delete_document_endpoint valid_name namespace_name doc_id))
    /\ (forall namespace_name,
          preserves handles_valid (list_namespace_documents valid_name namespace_name)).
Proof.
  intros encode valid_name. repeat split.
  - intros namespace query_text k use_cache. unfold query. apply preserves_bind.
    + destruct use_cache; [|apply preserves_ret].
      unfold _get_cached_result. apply preserves_get_then. intros. apply preserves_ret.
    + intros [cached|]; [apply preserves_ret|].
      apply preserves_try; [|intros; apply preserves_ret].
      apply preserves_bind; [apply preserves_get_collection_handles|intros _].
      apply preserves_bind; [apply reads_only_preserves, reads_only_get_model|intros _].
      apply preserves_bind; [apply preserves_col_query|intros hits].
      apply preserves_bind; [|intros; apply preserves_ret].
      destruct use_cache; [apply preserves_cache_result_handles|apply preserves_ret].
  - intros namespace chunks. unfold upsert_chunks. destruct chunks; [apply preserves_ret|].
    apply preserves_bind; [apply preserves_get_collection_handles|intros _].
    apply preserves_bind; [apply reads_only_preserves, reads_only_get_model|intros _].
    unfold col_upsert. apply preserves_bind; [apply reads_only_preserves, reads_only_col_fetch|].
    intros cl. destruct (nodupb _); [apply preserves_col_store_handles|apply preserves_raise].
  - intros namespace doc_id. apply preserves_delete_document_handles.
  - intros namespace. apply preserves_delete_namespace_handles.
  - intros s r s' Hs E. unfold clear_cache, bind, get, put in E. injection E as _ <-. exact Hs.
  - intros namespace_name. unfold delete_namespace_endpoint.
    destruct (String.eqb namespace_name "default"); [apply preserves_ret|].
    apply preserves_bind; [apply preserves_list_collections|intros names].
    destruct (negb _); [apply preserves_ret|].
    apply preserves_try; [|intros; apply preserves_ret].
    apply preserves_bind; [apply preserves_delete_namespace_handles|intros; apply preserves_ret].
  - intros namespace_name doc_id. unfold delete_document_endpoint.
    apply preserves_bind; [apply preserves_list_collections|intros names].
    destruct (_ && _); [apply preserves_ret|].
    apply preserves_try; [|intros; apply preserves_ret].
    apply preserves_bind; [apply preserves_delete_document_handles|intros; apply preserves_ret].
  - intros namespace_name. unfold list_namespace_documents.
    apply preserves_bind; [apply preserves_list_collections|intros names].
    destruct (_ && _); [apply preserves_ret|].
    apply preserves_try; [|intros; apply preserves_ret].
    apply preserves_bind; [apply preserves_get_collection_handles|intros _].
    apply preserves_bind; [apply reads_only_preserves, reads_only_col_fetch|intros; apply preserves_ret].
Qed.

(** *** Caching does not change answers *)

Lemma cache_result_stores key out s :
  st_cache_on s = false \/ (1 <= st_cache_max s)%Z \/ st_cache s <> [] ->
  exists s', _cache_result key out s = (inr tt, s')
             /\ st_client s' = st_client s /\ st_handles s' = st_handles s
             /\ (st_cache_on s = true -> dict_get key (st_cache s') = Some out)
             /\ (st_cache_on s = false -> s' = s).
Proof.
  intros Hm. unfold _cache_result, bind, get, put, ret, raise.
  destruct (st_cache_on s) eqn:Eon; cbn [negb].
  - destruct (Z.of_nat (length (st_cache s)) >=? st_cache_max s)%Z eqn:Ec.
    + destruct (st_cache s) as [|x rest] eqn:Eq.
      { exfalso. rewrite Z.geb_le in Ec. cbn in Ec.
        destruct Hm as [Hm | [Hm | Hm]]; [congruence | lia | congruence]. }
      eexists. split; [reflexivity|]. cbn. rewrite dict_get_set, String.eqb_refl.
      repeat split; auto. discriminate.
    + eexists. split; [reflexivity|]. cbn. rewrite dict_get_set, String.eqb_refl.
      repeat split; auto. discriminate.
  - eexists. split; [reflexivity|]. repeat split; auto. discriminate.
Qed.

(** X10.  A [query] that misses the cache (the cache is disabled or holds
    no entry for the key) returns what the same query with
    [use_cache=False] returns and leaves the same collections and handles,
    provided [_cache_result] cannot fail on eviction: the cache is disabled,
    or [_cache_max_size] is at least 1 (it is 100 in store.py), or the cache
    is not empty.  (At capacity 0 with an empty cache, [next(iter({}))]
    raises and the cached query answers [].)  The uncached query leaves the
    cache as it was; the cached one leaves it as it was when the cache is
    disabled, and otherwise either leaves it as it was or stores the answer
    under the query's key. *)
Theorem query_cache_miss_transparent :
  forall encode valid_name namespace query_text k st,
    st_cache_on st = false \/ (1 <= st_cache_max st)%Z \/ st_cache st <> [] ->
    st_cache_on st = false
    \/ dict_get (_get_cache_key namespace query_text k) (st_cache st) = None ->
    fst (query encode valid_name namespace query_text k true st)
      = fst (query encode valid_name namespace query_text k false st)
    /\ st_client (snd (query encode valid_name namespace query_text k true st))
       = st_client (snd (query encode valid_name namespace query_text k false st))
    /\ st_handles (snd (query encode valid_name namespace query_text k true st))
       = st_handles (snd (query encode valid_name namespace query_text k false st))
    /\ st_cache (snd (query encode valid_name namespace query_text k false st)) = st_cache st
    /\ (st_cache_on st = false ->
        st_cache (snd (query encode valid_name namespace query_text k true st)) = st_cache st)
    /\ (st_cache (snd (query encode valid_name namespace query_text k true st)) = st_cache st
        \/ exists r, fst (query encode valid_name namespace query_text k true st) = inr r
                     /\ dict_get (_get_cache_key namespace query_text k)
                          (st_cache (snd (query encode valid_name namespace query_text k true st)))
                        = Some r).
Proof.
  intros encode valid_name namespace query_text k st Hm Hmiss.
  set (key := _get_cache_key namespace query_text k) in *.
  assert (Hget : _get_cached_result key st = (inr None, st)).
  { unfold _get_cached_result, bind, get, ret.
    destruct Hmiss as [-> | ->]; [reflexivity|]. destruct (st_cache_on st); reflexivity. }
  assert (Hon1 : forall r s1, get_collection valid_name namespace st = (r, s1) ->
                              st_cache_on s1 = st_cache_on st).
  { intros r s1. unfold get_collection, try_except, client_get_collection,
      client_create_collection, storage_ok, bind, get, put, ret, raise.
    cbn -[dict_get existsb String.eqb]. intros H. split_match H.
    all: injection H as _ <-; reflexivity. }
  unfold query. fold key. unfold bind, ret, try_except. rewrite Hget.
  cbv beta iota zeta.
  destruct (get_collection valid_name namespace st) as [[e|[]] s1] eqn:E1;
    destruct (get_collection_cache_frame _ _ _ _ _ E1) as [Hc1 Hm1];
    cbv beta iota zeta.
  { repeat split; auto; left; auto. }
  destruct (get_model s1) as [[e|[]] s2] eqn:E2;
    rewrite (reads_only_get_model _ _ _ E2) in *; cbv beta iota zeta.
  { repeat split; auto; left; auto. }
  assert (E3' : forall r s3, col_query namespace (encode query_text) k s1 = (r, s3) -> s3 = s1).
  { intros r s3. unfold col_query. destruct (col_fetch namespace s1) as [[e'|c] s4] eqn:E4.
    - rewrite (bind_inl _ _ _ _ _ E4). rewrite (reads_only_col_fetch _ _ _ _ E4). congruence.
    - rewrite (bind_inr _ _ _ _ _ E4). rewrite (reads_only_col_fetch _ _ _ _ E4).
      unfold raise, ret. destruct (k <=? 0)%Z; congruence. }
  destruct (col_query namespace (encode query_text) k s1) as [[e|hits] s3] eqn:E3;
    rewrite (E3' _ _ eq_refl) in *; cbv beta iota zeta.
  { repeat split; auto; left; auto. }
  assert (Hm' : st_cache_on s1 = false \/ (1 <= st_cache_max s1)%Z \/ st_cache s1 <> [])
    by (rewrite (Hon1 _ _ eq_refl), Hc1, Hm1; exact Hm).
  destruct (cache_result_stores key (map format_hit hits) s1 Hm')
    as (s4 & E4 & Hcl & Hh & Hon & Hoff).
  pose proof (Hon1 _ _ eq_refl) as Hs1.
  rewrite E4. cbv beta iota zeta. cbn [fst snd]. repeat split; auto.
  - intros Hoff0. rewrite (Hoff ltac:(rewrite Hs1; exact Hoff0)). auto.
  - destruct (st_cache_on st) eqn:Eon.
    + right. exists (map format_hit hits). split; [reflexivity|].
      apply Hon. exact Hs1.
    + left. rewrite (Hoff Hs1). auto.
Qed.

Lemma query_cache_miss_transparent_witness :
  (st_cache_on Demo.st_docs = false \/ (1 <= st_cache_max Demo.st_docs)%Z
   \/ st_cache Demo.st_docs <> [])
  /\ (st_cache_on Demo.st_docs = false
      \/ dict_get (_get_cache_key "docs" "beta" 1) (st_cache Demo.st_docs) = None)
  /\ fst (query Demo.enc Demo.chroma_valid_name "docs" "beta" 1 true Demo.st_docs)
     = fst (query Demo.enc Demo.chroma_valid_name "docs" "beta" 1 false Demo.st_docs).
Proof.
  assert (Hm : st_cache_on Demo.st_docs = false \/ (1 <= st_cache_max Demo.st_docs)%Z
               \/ st_cache Demo.st_docs <> [])
    by (right; left; cbn; lia).
  assert (Hmiss : st_cache_on Demo.st_docs = false
      \/ dict_get (_get_cache_key "docs" "beta" 1) (st_cache Demo.st_docs) = None)
    by (right; reflexivity).
  split; [exact Hm|]. split; [exact Hmiss|].
  exact (proj1 (query_cache_miss_transparent Demo.enc Demo.chroma_valid_name "docs" "beta" 1
                  Demo.st_docs Hm Hmiss)).
Defined.

(** *** Grouping chunks into documents *)

Lemma mval_eqb_eq a b : mval_eqb a b = true <-> a = b.
Proof.
  destruct a as [x|x], b as [y|y]; cbn; split; intros H; try discriminate.
  - apply String.eqb_eq in H. now subst.
  - injection H as ->. apply String.eqb_refl.
  - apply Z.eqb_eq in H. now subst.
  - injection H as ->. apply Z.eqb_refl.
Qed.

Lemma mval_eqb_sym a b : mval_eqb a b = mval_eqb b a.
Proof.
  destruct (mval_eqb a b) eqn:E1, (mval_eqb b a) eqn:E2; auto.
  - apply mval_eqb_eq in E1. subst. rewrite (proj2 (mval_eqb_eq b b) eq_refl) in E2. discriminate.
  - apply mval_eqb_eq in E2. subst. rewrite (proj2 (mval_eqb_eq a a) eq_refl) in E1. discriminate.
Qed.

Lemma mdict_get_set {V} k k' (v : V) d :
  mdict_get k' (mdict_set k v d) = if mval_eqb k' k then Some v else mdict_get k' d.
Proof.
  induction d as [|[k0 v0] r IH]; cbn; [reflexivity|].
  destruct (mval_eqb k k0) eqn:E; cbn.
  - apply mval_eqb_eq in E. subst k0. destruct (mval_eqb k' k); reflexivity.
  - rewrite IH. destruct (mval_eqb k' k0) eqn:E'; [|reflexivity].
    apply mval_eqb_eq in E'. subst k0. rewrite mval_eqb_sym, E. reflexivity.
Qed.

Lemma mdict_set_in {V} k k' (v v' : V) d :
  In (k', v') (mdict_set k v d) -> In (k', v') d \/ (k' = k /\ v' = v).
Proof.
  induction d as [|[k0 v0] r IH]; cbn.
  - intros [H|[]]. injection H as <- <-. now right.
  - destruct (mval_eqb k k0) eqn:E; cbn.
    + intros [H|H]; [|now left; right]. injection H as <- <-.
      apply mval_eqb_eq in E. subst. now right.
    + intros [H|H]; [now left; left|]. destruct (IH H); [now left; right|now right].
Qed.

Lemma mdict_get_none {V} k (d : list (mval * V)) :
  ~ In k (map fst d) -> mdict_get k d = None.
Proof.
  induction d as [|[k0 v0] r IH]; cbn; [reflexivity|]. intros H.
  destruct (mval_eqb k k0) eqn:E; [apply mval_eqb_eq in E; subst; tauto|]. apply IH. tauto.
Qed.

Lemma mdict_get_in {V} k (v : V) d : mdict_get k d = Some v -> In k (map fst d).
Proof.
  induction d as [|[k0 v0] r IH]; cbn; [discriminate|].
  destruct (mval_eqb k k0) eqn:E; [apply mval_eqb_eq in E; now left|]. intros H; right; auto.
Qed.

Lemma mdict_get_some_in {V} k (v : V) d : mdict_get k d = Some v -> In (k, v) d.
Proof.
  induction d as [|[k0 v0] r IH]; cbn; [discriminate|].
  destruct (mval_eqb k k0) eqn:E.
  - intros H. injection H as <-. apply mval_eqb_eq in E. subst. now left.
  - intros H. right. auto.
Qed.

Lemma map_fst_mdict_set {V} k (v : V) d :
  map fst (mdict_set k v d)
  = if existsb (mval_eqb k) (map fst d) then map fst d else (map fst d ++ [k])%list.
Proof.
  induction d as [|[k0 v0] r IH]; cbn; [reflexivity|].
  destruct (mval_eqb k k0) eqn:E; cbn; [reflexivity|].
  rewrite IH. destruct (existsb _ _); reflexivity.
Qed.

Lemma mdict_set_nodup {V} k (v : V) d : NoDup (map fst d) -> NoDup (map fst (mdict_set k v d)).
Proof.
  intros H. rewrite map_fst_mdict_set. destruct (existsb _ _) eqn:E; [exact H|].
  apply NoDup_app; [exact H|constructor; [intros []|constructor]|].
  intros a Ha [<-|[]].
  assert (existsb (mval_eqb k) (map fst d) = true)
    by (apply existsb_exists; exists k; split; [exact Ha|now apply mval_eqb_eq]).
  congruence.
Qed.

(** The [documents] dict is well formed: each key once, each summary
    under its own [doc_id]. *)
Definition docs_ok (documents : list (mval * doc_summary)) : Prop :=
  NoDup (map fst documents) /\ forall k s, In (k, s) documents -> s_doc_id s = k.

Definition doc_count (d : mval) (documents : list (mval * doc_summary)) : Z :=
  match mdict_get d documents with Some s => s_chunk_count s | None => 0%Z end.

Definition counts_chunk (d : mval) (md : metadata) : bool :=
  match dict_get "doc_id" md with
  | Some d' => truthy (Some d') && truthy (dict_get "filename" md) && mval_eqb d' d
  | None => false
  end.

Lemma listed_chunks_cons d md ms :
  listed_chunks d (md :: ms) = ((if counts_chunk d md then 1 else 0) + listed_chunks d ms)%nat.
Proof.
  change (length (filter (counts_chunk d) (md :: ms))
          = ((if counts_chunk d md then 1 else 0) + length (filter (counts_chunk d) ms))%nat).
  cbn [filter]. destruct (counts_chunk d md); reflexivity.
Qed.

Lemma group_documents_step namespace_name documents md d :
  docs_ok documents ->
  docs_ok (group_documents namespace_name documents [md])
  /\ doc_count d (group_documents namespace_name documents [md])
     = (doc_count d documents + if counts_chunk d md then 1 else 0)%Z
  /\ (mdict_get d (group_documents namespace_name documents [md]) = None
      <-> mdict_get d documents = None /\ counts_chunk d md = false).
Proof.
  intros [Hnd Hk]. cbn [group_documents]. unfold counts_chunk.
  destruct (dict_get "doc_id" md) as [dd|] eqn:Ed;
    [|repeat split; auto; try lia; tauto].
  destruct (dict_get "filename" md) as [f|] eqn:Ef;
    [|cbn [truthy]; rewrite andb_false_r; cbn [andb]; repeat split; auto; try lia; tauto].
  destruct (truthy (Some dd) && truthy (Some f)) eqn:Et;
    cbn [andb]; [|repeat split; auto; try lia; tauto].
  set (D1 := match mdict_get dd documents with
             | Some _ => documents
             | None => mdict_set dd (mk_summary dd f namespace_name 0
                        (match dict_get "session_id" md with Some s => s | None => MStr "unknown" end))
                        documents
             end).
  assert (HD1 : docs_ok D1 /\ exists s, mdict_get dd D1 = Some s
                /\ s_chunk_count s = doc_count dd documents
                /\ (forall d', mval_eqb d' dd = false -> mdict_get d' D1 = mdict_get d' documents)).
  { unfold D1, doc_count. destruct (mdict_get dd documents) as [s|] eqn:Eg.
    - split; [split; auto|]. exists s. auto.
    - split; [split|].
      + now apply mdict_set_nodup.
      + intros k s Hin. destruct (mdict_set_in _ _ _ _ _ Hin) as [Hin'|[-> ->]];
          [exact (Hk _ _ Hin')|reflexivity].
      + eexists. rewrite mdict_get_set, (proj2 (mval_eqb_eq dd dd) eq_refl).
        split; [reflexivity|]. split; [reflexivity|].
        intros d' Hd'. rewrite mdict_get_set, Hd'. reflexivity. }
  destruct HD1 as [[Hnd1 Hk1] (s & Es & Ecnt & Hother)]. rewrite Es.
  assert (Hsd : s_doc_id s = dd) by exact (Hk1 _ _ (mdict_get_some_in _ _ _ Es)).
  split; [split|split].
  - now apply mdict_set_nodup.
  - intros k s0 Hin. destruct (mdict_set_in _ _ _ _ _ Hin) as [Hin'|[-> ->]];
      [exact (Hk1 _ _ Hin')|exact Hsd].
  - unfold doc_count. rewrite mdict_get_set. rewrite (mval_eqb_sym dd d).
    destruct (mval_eqb d dd) eqn:E.
    + apply mval_eqb_eq in E. subst d. cbn [s_chunk_count]. rewrite Ecnt. reflexivity.
    + rewrite Hother by exact E. lia.
  - rewrite mdict_get_set, (mval_eqb_sym dd d). destruct (mval_eqb d dd) eqn:E.
    + apply mval_eqb_eq in E. subst d. split; [discriminate|].
      intros [_ Hc]. discriminate.
    + rewrite Hother by exact E. tauto.
Qed.

Lemma group_documents_all namespace_name ms : forall documents d,
  docs_ok documents ->
  docs_ok (group_documents namespace_name documents ms)
  /\ doc_count d (group_documents namespace_name documents ms)
     = (doc_count d documents + Z.of_nat (listed_chunks d ms))%Z
  /\ (mdict_get d (group_documents namespace_name documents ms) = None
      <-> mdict_get d documents = None /\ listed_chunks d ms = 0%nat).
Proof.
  induction ms as [|md ms IH]; intros documents d Hok.
  - cbn. split; [exact Hok|]. repeat split; auto; try lia; tauto.
  - change (group_documents namespace_name documents (md :: ms))
      with (group_documents namespace_name (group_documents namespace_name documents [md]) ms).
    destruct (group_documents_step namespace_name documents md d Hok) as (Hok1 & Hc1 & Hn1).
    destruct (IH _ d Hok1) as (Hok2 & Hc2 & Hn2).
    rewrite listed_chunks_cons. split; [exact Hok2|split].
    + rewrite Hc2, Hc1. destruct (counts_chunk d md); lia.
    + rewrite Hn2, Hn1. destruct (counts_chunk d md); cbn.
      * split; intros [H1 H2]; [destruct H1 as [_ H1]|]; discriminate.
      * tauto.
Qed.

Lemma docs_filter documents d :
  docs_ok documents ->
  filter (fun s => mval_eqb (s_doc_id s) d) (map snd documents)
  = match mdict_get d documents with Some s => [s] | None => [] end.
Proof.
  induction documents as [|[k s] r IH]; intros [Hnd Hk]; cbn; [reflexivity|].
  inversion Hnd as [|y ys Hy Hnd' Heq]; subst.
  assert (Hr : docs_ok r) by (split; [exact Hnd'|intros; apply Hk; now right]).
  rewrite (Hk k s (or_introl eq_refl)), IH by exact Hr.
  rewrite (mval_eqb_sym k d). destruct (mval_eqb d k) eqn:E; [|reflexivity].
  apply mval_eqb_eq in E. subst k. rewrite mdict_get_none by exact Hy. reflexivity.
Qed.

(** X11.  When [list_namespace_documents] returns a document list, it was
    built from the namespace's collection as stored (or from an empty one
    just created), and [total_chunks] is the number of its vectors.  A
    falsy [doc_id] value [d] (the empty string, 0) never gets a summary.
    For any [d], the list has no summary for [d] when no vector has
    [doc_id] equal to [d], with both [doc_id] and [filename] truthy (the
    code's [if doc_id and filename]), and exactly one otherwise, whose
    [chunk_count] is the number of those vectors. *)
Lemma listed_chunks_falsy d ms : truthy (Some d) = false -> listed_chunks d ms = 0%nat.
Proof.
  intros Hf. induction ms as [|md ms IH]; [reflexivity|].
  rewrite listed_chunks_cons, IH. unfold counts_chunk.
  destruct (dict_get "doc_id" md) as [d'|]; [|reflexivity].
  destruct (mval_eqb d' d) eqn:E; [|now rewrite andb_false_r].
  apply mval_eqb_eq in E. subst d'. now rewrite Hf.
Qed.

Theorem list_namespace_documents_counts :
  forall valid_name namespace_name st documents total st',
    list_namespace_documents valid_name namespace_name st = (inr (inr (documents, total)), st') ->
    exists c,
      (dict_get namespace_name (st_client st) = Some c
       \/ (dict_get namespace_name (st_client st) = None /\ c = []))
      /\ total = Z.of_nat (length c)
      /\ forall d,
           (truthy (Some d) = false ->
            filter (fun s => mval_eqb (s_doc_id s) d) documents = [])
           /\ (listed_chunks d (map e_meta c) = 0%nat ->
               filter (fun s => mval_eqb (s_doc_id s) d) documents = [])
           /\ (listed_chunks d (map e_meta c) <> 0%nat ->
               exists s, filter (fun s => mval_eqb (s_doc_id s) d) documents = [s]
                         /\ s_chunk_count s = Z.of_nat (listed_chunks d (map e_meta c))).
Proof.
  intros valid_name namespace_name st documents total st' H.
  unfold list_namespace_documents in H.
  unfold bind at 1 in H. destruct (list_collections st) as [[e|names] s0] eqn:E0;
    [unfold list_collections in E0; destruct (st_io_ok st); discriminate|].
  assert (s0 = st) by (unfold list_collections in E0; destruct (st_io_ok st); congruence).
  subst s0.
  destruct (_ && _); [unfold ret in H; discriminate|].
  unfold try_except in H.
  destruct (get_collection valid_name namespace_name st) as [[e|[]] s1] eqn:E1.
  { rewrite (bind_inl _ _ _ _ _ E1) in H. unfold ret in H. discriminate. }
  rewrite (bind_inr _ _ _ _ _ E1) in H.
  destruct (col_fetch namespace_name s1) as [[e|c] s2] eqn:E2.
  { rewrite (bind_inl _ _ _ _ _ E2) in H. unfold ret in H. discriminate. }
  rewrite (bind_inr _ _ _ _ _ E2) in H. unfold ret in H.
  injection H as Hd Ht _. subst documents total.
  destruct (col_fetch_inv _ _ _ _ E2) as (-> & _ & Ec).
  destruct (get_collection_spec _ _ _ _ _ E1) as (_ & _ & _ & Hnew & _ & Hsame).
  exists c. split.
  { destruct (dict_get namespace_name (st_client st)) as [c0|] eqn:Eg.
    - left. rewrite Hsame in Ec by congruence. congruence.
    - right. split; [reflexivity|]. destruct (Hnew c Ec) as [H'|H']; congruence. }
  split; [reflexivity|].
  intros d.
  assert (Hok0 : docs_ok []) by (split; [constructor|intros k s []]).
  destruct (group_documents_all namespace_name (map e_meta c) [] d Hok0) as (Hok & Hcnt & Hnone).
  rewrite docs_filter by exact Hok. unfold doc_count in Hcnt. cbn [mdict_get] in Hcnt, Hnone.
  assert (Hz : listed_chunks d (map e_meta c) = 0%nat ->
               match mdict_get d (group_documents namespace_name [] (map e_meta c)) with
               | Some s => [s] | None => [] end = []).
  { intros H0. destruct (mdict_get d _) eqn:Eg; [|reflexivity].
    assert (Some d0 = None) by (apply Hnone; tauto). discriminate. }
  split; [|split].
  - intros Hf. apply Hz. now apply listed_chunks_falsy.
  - exact Hz.
  - intros H0. destruct (mdict_get d _) as [s|] eqn:Eg.
    + exists s. split; [reflexivity|]. lia.
    + exfalso. apply H0. apply Hnone. reflexivity.
Qed.

Lemma list_namespace_documents_counts_witness :
  list_namespace_documents Demo.chroma_valid_name "docs" Demo.st_files
  = (inr (inr ([mk_summary (MStr "d1") (MStr "notes.txt") "docs" 2 (MStr "unknown")], 3%Z)),
     Demo.st_files)
  /\ exists c,
      (dict_get "docs" (st_client Demo.st_files) = Some c
       \/ (dict_get "docs" (st_client Demo.st_files) = None /\ c = []))
      /\ 3%Z = Z.of_nat (length c)
      /\ forall d,
           (truthy (Some d) = false ->
            filter (fun s => mval_eqb (s_doc_id s) d)
              [mk_summary (MStr "d1") (MStr "notes.txt") "docs" 2 (MStr "unknown")] = [])
           /\ (listed_chunks d (map e_meta c) = 0%nat ->
            filter (fun s => mval_eqb (s_doc_id s) d)
              [mk_summary (MStr "d1") (MStr "notes.txt") "docs" 2 (MStr "unknown")] = [])
           /\ (listed_chunks d (map e_meta c) <> 0%nat ->
               exists s, filter (fun s => mval_eqb (s_doc_id s) d)
                           [mk_summary (MStr "d1") (MStr "notes.txt") "docs" 2 (MStr "unknown")]
                         = [s]
                         /\ s_chunk_count s = Z.of_nat (listed_chunks d (map e_meta c))).
Proof.
  assert (H : list_namespace_documents Demo.chroma_valid_name "docs" Demo.st_files
    = (inr (inr ([mk_summary (MStr "d1") (MStr "notes.txt") "docs" 2 (MStr "unknown")], 3%Z)),
       Demo.st_files)) by (vm_compute; reflexivity).
  split; [exact H|].
  exact (list_namespace_documents_counts Demo.chroma_valid_name "docs" Demo.st_files _ _ _ H).
Defined.

(** *** Creating a namespace *)

Lemma get_collection_success valid_name namespace st st' :
  handles_valid st ->
  get_collection valid_name namespace st = (inr tt, st') ->
  In namespace (st_handles st')
  /\ (st_io_ok st = false -> st' = st /\ dict_get namespace (st_client st) <> None)
  /\ (st_io_ok st = true -> dict_get namespace (st_client st) = None ->
      dict_get namespace (st_client st') = Some []).
Proof.
  intros Hv H.
  destruct (existsb (String.eqb namespace) (st_handles st)) eqn:Eh.
  - unfold get_collection, bind, get, ret in H. rewrite Eh in H. injection H as <-.
    apply existsb_exists in Eh as (n & Hn & En). apply String.eqb_eq in En. subst n.
    split; [exact Hn|]. split; [intros _; split; [reflexivity|exact (Hv _ Hn)]|].
    intros _ Hg. exfalso. exact (Hv _ Hn Hg).
  - unfold get_collection, try_except, client_get_collection, client_create_collection,
      storage_ok, bind, get, put, ret, raise in H.
    rewrite Eh in H. cbn -[dict_get existsb String.eqb] in H.
    split_match H; try discriminate.
    all: injection H as <-; cbn -[dict_get String.eqb].
    all: split; [apply in_or_app; right; now left|].
    all: split; [intros; congruence|].
    all: intros _ Hg; try congruence.
    rewrite dict_get_app_fresh by eassumption. now rewrite String.eqb_refl.
Qed.

(** X12.  When [create_namespace] succeeds (with every cached handle naming
    a stored collection), the namespace it reports is the stripped input,
    it matches [[a-zA-Z0-9_-]+], and its handle is cached; with the storage
    reachable the name had no collection and now has an empty one, and no
    other namespace changed; with the storage unreachable nothing changed
    and the name already had a collection. *)
Theorem create_namespace_success :
  forall valid_name name st name' st',
    handles_valid st ->
    create_namespace valid_name name st = (inr (inr name'), st') ->
    name' = strip name
    /\ name_matches name' = true
    /\ In name' (st_handles st')
    /\ (st_io_ok st = true ->
        dict_get name' (st_client st) = None /\ dict_get name' (st_client st') = Some [])
    /\ (st_io_ok st = false -> st' = st /\ dict_get name' (st_client st) <> None)
    /\ (forall other, other <> name' -> dict_get other (st_client st') = dict_get other (st_client st)).
Proof.
  intros valid_name name st name' st' Hv H. unfold create_namespace in H.
  destruct (is_empty name || is_empty (strip name)); [unfold ret in H; discriminate|].
  destruct (name_matches (strip name)) eqn:Em; cbn [negb] in H; [|unfold ret in H; discriminate].
  unfold bind at 1 in H. destruct (list_collections st) as [[e|names] s0] eqn:E0;
    [unfold list_collections in E0; destruct (st_io_ok st); discriminate|].
  assert (Hs0 : s0 = st) by (unfold list_collections in E0; destruct (st_io_ok st); congruence).
  subst s0.
  destruct (listed (strip name) names) eqn:El; [unfold ret in H; discriminate|].
  unfold try_except in H.
  destruct (get_collection valid_name (strip name) st) as [[e|[]] s1] eqn:E1.
  { rewrite (bind_inl _ _ _ _ _ E1) in H. unfold ret in H. discriminate. }
  rewrite (bind_inr _ _ _ _ _ E1) in H. unfold ret in H. injection H as <- <-.
  destruct (get_collection_success _ _ _ _ Hv E1) as (Hin & Hdown & Hup).
  destruct (get_collection_spec _ _ _ _ _ E1) as (_ & _ & _ & _ & Hframe & _).
  split; [reflexivity|]. split; [exact Em|]. split; [exact Hin|].
  split; [|split; [exact Hdown|exact Hframe]].
  intros Hio.
  assert (Hg : dict_get (strip name) (st_client st) = None).
  { unfold list_collections in E0. rewrite Hio in E0. injection E0 as <-.
    rewrite listed_keys in El. destruct (dict_get (strip name) (st_client st)); congruence. }
  split; [exact Hg|exact (Hup Hio Hg)].
Qed.

Lemma create_namespace_success_witness :
  handles_valid Demo.st_docs
  /\ create_namespace Demo.chroma_valid_name " new_ns " Demo.st_docs
     = (inr (inr "new_ns"), snd (create_namespace Demo.chroma_valid_name " new_ns " Demo.st_docs))
  /\ dict_get "new_ns" (st_client (snd (create_namespace Demo.chroma_valid_name " new_ns " Demo.st_docs)))
     = Some [].
Proof.
  assert (Hv : handles_valid Demo.st_docs).
  { intros n [<-|[]]. cbn. discriminate. }
  assert (H : create_namespace Demo.chroma_valid_name " new_ns " Demo.st_docs
     = (inr (inr "new_ns"), snd (create_namespace Demo.chroma_valid_name " new_ns " Demo.st_docs)))
    by (vm_compute; reflexivity).
  split; [exact Hv|]. split; [exact H|].
  destruct (create_namespace_success _ _ _ _ _ Hv H) as (_ & _ & _ & Hup & _).
  exact (proj2 (Hup eq_refl)).
Defined.

(** *** Listing namespaces *)

Lemma insert_sorted_in x a l : In x (insert_sorted a l) <-> In x (a :: l).
Proof.
  induction l as [|y r IH]; cbn; [tauto|].
  destruct (String.leb a y); cbn; [tauto|]. rewrite IH. cbn. tauto.
Qed.

Lemma sorted_strings_in x l : In x (sorted_strings l) <-> In x l.
Proof.
  induction l as [|a r IH]; cbn; [tauto|]. rewrite insert_sorted_in. cbn. rewrite IH. tauto.
Qed.

Lemma insert_sorted_sorted a l :
  Sorted (fun x y => String.leb x y = true) l ->
  Sorted (fun x y => String.leb x y = true) (insert_sorted a l).
Proof.
  induction l as [|y r IH]; intros Hs; cbn; [repeat constructor|].
  destruct (String.leb a y) eqn:E; [constructor; [exact Hs|now constructor]|].
  apply Sorted_inv in Hs as [Hr Hhd]. constructor; [exact (IH Hr)|].
  destruct r as [|z r']; cbn.
  - constructor. destruct (String.leb_total a y); congruence.
  - apply HdRel_inv in Hhd. destruct (String.leb a z); constructor;
      [destruct (String.leb_total a y); congruence|exact Hhd].
Qed.

Lemma sorted_strings_sorted l :
  Sorted (fun x y => String.leb x y = true) (sorted_strings l).
Proof. induction l as [|a r IH]; cbn; [constructor|]. now apply insert_sorted_sorted. Qed.

(** The stored collections of [st] are still stored in [st'], and [st']
    has at most some new empty ones. *)
Definition client_grows (st st' : state) : Prop :=
  (forall n c, dict_get n (st_client st) = Some c -> dict_get n (st_client st') = Some c)
  /\ (forall n c, dict_get n (st_client st') = Some c ->
        dict_get n (st_client st) = Some c \/ c = []).

Lemma client_grows_refl st : client_grows st st.
Proof. split; auto. Qed.

Lemma client_grows_trans s1 s2 s3 : client_grows s1 s2 -> client_grows s2 s3 -> client_grows s1 s3.
Proof.
  intros [A1 B1] [A2 B2]. split; auto.
  intros n c H. destruct (B2 _ _ H) as [H' | ->]; auto.
Qed.

Lemma get_collection_grows valid_name namespace st r st' :
  get_collection valid_name namespace st = (r, st') ->
  client_grows st st' /\ st_io_ok st' = st_io_ok st.
Proof.
  intros H. destruct (get_collection_spec _ _ _ _ _ H) as (Hio & _ & _ & Hnew & Hframe & Hsame).
  split; [split|exact Hio].
  - intros n c Hc. destruct (String.eqb_spec n namespace) as [->|Hn].
    + rewrite Hsame by congruence. exact Hc.
    + rewrite Hframe by exact Hn. exact Hc.
  - intros n c Hc. destruct (String.eqb_spec n namespace) as [->|Hn].
    + exact (Hnew _ Hc).
    + rewrite Hframe in Hc by exact Hn. now left.
Qed.

Lemma get_collection_stored valid_name namespace st :
  st_io_ok st = true -> dict_get namespace (st_client st) <> None ->
  exists st', get_collection valid_name namespace st = (inr tt, st').
Proof.
  intros Hio Hg.
  unfold get_collection, try_except, client_get_collection, storage_ok, bind, get, put, ret, raise.
  destruct (existsb (String.eqb namespace) (st_handles st)); [eexists; reflexivity|].
  rewrite Hio. destruct (dict_get namespace (st_client st)) eqn:E; [|congruence].
  eexists. reflexivity.
Qed.

Lemma namespace_infos_spec valid_name names : forall st0 st,
  client_grows st0 st -> st_io_ok st = st_io_ok st0 ->
  exists infos st',
    namespace_infos valid_name names st = (inr infos, st')
    /\ map i_name infos = names
    /\ (forall i, In i infos -> i_default i = String.eqb (i_name i) "default")
    /\ (st_io_ok st0 = true ->
        forall i, In i infos ->
          i_count i = match dict_get (i_name i) (st_client st0) with
                      | Some c => Z.of_nat (length c) | None => 0%Z end)
    /\ client_grows st0 st' /\ st_io_ok st' = st_io_ok st0.
Proof.
  induction names as [|n r IH]; intros st0 st Hg Hio.
  - exists [], st. cbn. repeat split; auto; try (intros; contradiction); apply Hg.
  - cbn [namespace_infos].
    (* the count of [n] and the state after it *)
    assert (Hstep : exists cnt s1,
              try_except (get_collection valid_name n ;; col_count n) (fun _ => ret 0%Z) st
                = (inr cnt, s1)
              /\ client_grows st0 s1 /\ st_io_ok s1 = st_io_ok st0
              /\ (st_io_ok st0 = true ->
                  cnt = match dict_get n (st_client st0) with
                        | Some c => Z.of_nat (length c) | None => 0%Z end)).
    { unfold try_except.
      destruct (get_collection valid_name n st) as [[e|[]] s1] eqn:E1;
        destruct (get_collection_grows _ _ _ _ _ E1) as [Hg1 Hio1].
      - rewrite (bind_inl _ _ _ _ _ E1). unfold ret.
        exists 0%Z, s1. split; [reflexivity|].
        split; [exact (client_grows_trans _ _ _ Hg Hg1)|]. split; [congruence|].
        intros Hio0. destruct (dict_get n (st_client st0)) as [c|] eqn:Ec; [|reflexivity].
        exfalso. destruct (get_collection_stored valid_name n st) as [s' Es]; [congruence| |].
        + rewrite (proj1 Hg _ _ Ec). discriminate.
        + congruence.
      - rewrite (bind_inr _ _ _ _ _ E1). unfold col_count.
        destruct (col_fetch n s1) as [[e|c] s2] eqn:E2.
        + rewrite (bind_inl _ _ _ _ _ E2). rewrite (reads_only_col_fetch _ _ _ _ E2) in *.
          unfold ret. exists 0%Z, s1. split; [reflexivity|].
          split; [exact (client_grows_trans _ _ _ Hg Hg1)|]. split; [congruence|].
          intros Hio0. destruct (dict_get n (st_client st0)) as [c|] eqn:Ec; [|reflexivity].
          exfalso. revert E2. unfold col_fetch, storage_ok, bind, get, raise, ret.
          rewrite Hio1, Hio, Hio0. rewrite (proj1 Hg1 _ _ (proj1 Hg _ _ Ec)). discriminate.
        + rewrite (bind_inr _ _ _ _ _ E2). destruct (col_fetch_inv _ _ _ _ E2) as (-> & _ & Ec).
          unfold ret. exists (Z.of_nat (length c)), s1. split; [reflexivity|].
          split; [exact (client_grows_trans _ _ _ Hg Hg1)|]. split; [congruence|].
          intros _. pose proof (client_grows_trans _ _ _ Hg Hg1) as [A B].
          destruct (B _ _ Ec) as [H0 | ->].
          * now rewrite H0.
          * destruct (dict_get n (st_client st0)) as [c0|] eqn:E0; [|reflexivity].
            rewrite (A _ _ E0) in Ec. injection Ec as ->. reflexivity. }
    destruct Hstep as (cnt & s1 & E1 & Hg1 & Hio1 & Hcnt).
    rewrite (bind_inr _ _ _ _ _ E1).
    destruct (IH st0 s1 Hg1 Hio1) as (infos & s2 & E2 & Hn & Hd & Hc & Hg2 & Hio2).
    rewrite (bind_inr _ _ _ _ _ E2). unfold ret.
    exists (mk_ns_info n cnt (String.eqb n "default") :: infos), s2.
    split; [reflexivity|]. cbn [map i_name]. rewrite Hn. split; [reflexivity|].
    split; [intros i [<-|Hi]; [reflexivity|exact (Hd i Hi)]|].
    split; [intros Hio0 i [<-|Hi]; [exact (Hcnt Hio0)|exact (Hc Hio0 i Hi)]|].
    split; [exact Hg2|exact Hio2].
Qed.

Lemma in_keys {V} n (d : list (string * V)) : In n (map fst d) <-> dict_get n d <> None.
Proof.
  induction d as [|[k v] r IH]; cbn; [tauto|].
  destruct (String.eqb_spec n k) as [->|Hn]; [split; [discriminate|now left]|].
  rewrite <- IH. split; [intros [H|H]; [congruence|exact H]|now right].
Qed.

Lemma listed_in n names : listed n names = true <-> In n names.
Proof.
  unfold listed. rewrite existsb_exists. split.
  - intros (x & Hx & E). apply String.eqb_eq in E. now subst.
  - intros H. exists n. split; [exact H|apply String.eqb_refl].
Qed.

(** X13.  [list_namespaces] never answers 500.  Its entries are sorted by
    name, always include "default", and, with the storage reachable, name
    exactly the stored collections plus "default"; only "default" is
    flagged [is_default], and each entry counts the vectors stored under its
    name (0 for a namespace without a collection).  It never removes or
    changes a stored collection; at most it creates empty ones. *)
Theorem list_namespaces_report :
  forall valid_name st,
    exists infos st',
      list_namespaces valid_name st = (inr (inr infos), st')
      /\ In "default" (map i_name infos)
      /\ Sorted (fun x y => String.leb x y = true) (map i_name infos)
      /\ (forall i, In i infos -> i_default i = String.eqb (i_name i) "default")
      /\ (forall n, In n (map i_name infos)
                    <-> n = "default" \/ (st_io_ok st = true /\ dict_get n (st_client st) <> None))
      /\ (st_io_ok st = true ->
          forall i, In i infos ->
            i_count i = match dict_get (i_name i) (st_client st) with
                        | Some c => Z.of_nat (length c) | None => 0%Z end)
      /\ client_grows st st'.
Proof.
  intros valid_name st. unfold list_namespaces, try_except.
  unfold bind at 1. destruct (list_collections st) as [[e|names] s0] eqn:E0;
    [unfold list_collections in E0; destruct (st_io_ok st); discriminate|].
  assert (Hs0 : s0 = st) by (unfold list_collections in E0; destruct (st_io_ok st); congruence).
  subst s0.
  set (names' := if listed "default" names then names else (names ++ ["default"])%list).
  assert (Hnames : forall n, In n names' <->
                     n = "default" \/ (st_io_ok st = true /\ dict_get n (st_client st) <> None)).
  { intros n. assert (Hn : In n names <-> st_io_ok st = true /\ dict_get n (st_client st) <> None).
    { unfold list_collections in E0. destruct (st_io_ok st); injection E0 as <-.
      - rewrite in_keys. tauto.
      - cbn. split; [tauto|intros [H _]; discriminate]. }
    unfold names'. destruct (listed "default" names) eqn:El.
    - apply listed_in in El. split; [tauto|]. intros [->|H]; [exact El|tauto].
    - rewrite in_app_iff, Hn. cbn. split; intros [H|H]; try tauto.
      + destruct H as [<-|[]]. now left.
      + subst n. right. now left. }
  destruct (namespace_infos_spec valid_name (sorted_strings names') st st
              (client_grows_refl st) eq_refl)
    as (infos & st' & E1 & Hn & Hd & Hc & Hg & _).
  rewrite (bind_inr _ _ _ _ _ E1). unfold ret.
  exists infos, st'. split; [reflexivity|]. rewrite Hn.
  split; [apply sorted_strings_in, Hnames; now left|].
  split; [apply sorted_strings_sorted|].
  split; [exact Hd|].
  split; [intros n; rewrite sorted_strings_in; apply Hnames|].
  split; [exact Hc|exact Hg].
Qed.

Lemma list_namespaces_report_witness :
  list_namespaces Demo.chroma_valid_name Demo.st_docs
  = (inr (inr [mk_ns_info "default" 0 true; mk_ns_info "docs" 2 false]),
     snd (list_namespaces Demo.chroma_valid_name Demo.st_docs))
  /\ exists infos st',
       list_namespaces Demo.chroma_valid_name Demo.st_docs = (inr (inr infos), st')
       /\ In "default" (map i_name infos).
Proof.
  split; [vm_compute; reflexivity|].
  destruct (list_namespaces_report Demo.chroma_valid_name Demo.st_docs)
    as (infos & st' & E & Hdef & _).
  exists infos, st'. split; [exact E|exact Hdef].
Defined.

(** *** Deleting a document twice *)

Lemma delete_document_handle valid_name namespace doc_id st n st' :
  delete_document valid_name namespace doc_id st = (inr n, st') ->
  existsb (String.eqb namespace) (st_handles st') = true /\ st_io_ok st' = true.
Proof.
  intros H. unfold delete_document, try_except in H.
  destruct (get_collection valid_name namespace st) as [[e|[]] st1] eqn:E1.
  { rewrite (bind_inl _ _ _ _ _ E1) in H. discriminate. }
  rewrite (bind_inr _ _ _ _ _ E1) in H.
  pose proof (get_collection_handle _ _ _ _ E1) as Hh.
  destruct (col_fetch namespace st1) as [[e|c] st2] eqn:E2.
  { rewrite (bind_inl _ _ _ _ _ E2) in H. discriminate. }
  rewrite (bind_inr _ _ _ _ _ E2) in H.
  destruct (col_fetch_inv _ _ _ _ E2) as (-> & Eio & _).
  destruct (map e_id (filter (doc_matches doc_id) c)) as [|i is].
  - unfold ret in H. injection H as _ <-. auto.
  - destruct (col_delete namespace (i :: is) st1) as [[e|[]] st3] eqn:E3.
    { rewrite (bind_inl _ _ _ _ _ E3) in H. discriminate. }
    rewrite (bind_inr _ _ _ _ _ E3) in H. unfold ret in H. injection H as _ <-.
    unfold col_delete in E3. rewrite (bind_inr _ _ _ _ _ E2) in E3.
    unfold col_store, bind, get, put in E3. injection E3 as <-. cbn. auto.
Qed.

(** X14.  [delete_document] is idempotent: right after a call that
    returns, the same call returns 0 and changes nothing, not even the
    handle cache. *)
Theorem delete_document_twice :
  forall valid_name namespace doc_id st n st',
    coll_ids_unique st ->
    delete_document valid_name namespace doc_id st = (inr n, st') ->
    delete_document valid_name namespace doc_id st' = (inr 0%Z, st').
Proof.
  intros valid_name namespace doc_id st n st' Hu H.
  destruct (delete_document_handle _ _ _ _ _ _ H) as [Hh Hio].
  destruct (delete_document_effect _ _ _ _ _ _ Hu H) as (c & _ & Ec & _).
  unfold delete_document, try_except.
  rewrite (bind_inr _ _ _ _ _ (get_collection_known valid_name namespace st' Hh)).
  rewrite (bind_inr _ _ _ _ _ (col_fetch_ok _ _ _ Hio Ec)).
  rewrite (filter_all_false (doc_matches doc_id)); [reflexivity|].
  intros e He. apply filter_In in He as [_ He]. now apply negb_true_iff in He.
Qed.

Lemma delete_document_twice_witness :
  coll_ids_unique Demo.st_docs
  /\ delete_document Demo.chroma_valid_name "docs" "d1" Demo.st_docs
     = (inr 1%Z, snd (delete_document Demo.chroma_valid_name "docs" "d1" Demo.st_docs))
  /\ delete_document Demo.chroma_valid_name "docs" "d1"
       (snd (delete_document Demo.chroma_valid_name "docs" "d1" Demo.st_docs))
     = (inr 0%Z, snd (delete_document Demo.chroma_valid_name "docs" "d1" Demo.st_docs)).
Proof.
  assert (H : delete_document Demo.chroma_valid_name "docs" "d1" Demo.st_docs
     = (inr 1%Z, snd (delete_document Demo.chroma_valid_name "docs" "d1" Demo.st_docs)))
    by (vm_compute; reflexivity).
  split; [exact st_docs_ids_unique|]. split; [exact H|].
  exact (delete_document_twice _ _ _ _ _ _ st_docs_ids_unique H).
Defined.
